(** * outlived: importing lifespans into a sorted set and querying them

    A shallow embedding of [outlived.go].  The program imports a CSV list of
    deceased musicians into a Redis sorted set keyed by the age at death in
    days, and prints the musicians whose age at death lies within a window
    around the age of the person asking, with a marker line at that person's
    own place in the list.

    Go's [int] is the 64-bit integer of the usual platforms, modelled as [Z]
    with the wrap-around written out where the program adds or subtracts;
    [float64] is Rocq's primitive binary64 float; strings are [string] (a
    sequence of bytes, as in Go).  The standard library functions the program
    calls ([time.Parse], [Time.Sub], [Duration.Hours], [math.Mod],
    [strings.Split], [fmt.Sprintf]) and the Redis commands it sends are
    modelled from their documented behaviour; the server reads the scores
    and the bounds it is sent as float64. *)

From Stdlib Require Import ZArith QArith Qround Floats Uint63 Lia String Ascii
  DecimalString.
From stdpp Require Import gmap strings list fin_maps sorting.

Open Scope Z_scope.

(** ** Outcomes

    Every error of the program is fatal: [log.Fatal] prints and exits.  The
    kinds of fatal error are enumerated; an index out of range is a run-time
    panic, which is not a logged fatal error. *)

Inductive fatal : Set :=
| InvalidQueryDate      (* "invalid query date format: ..." *)
| UnparseableBirthDate  (* "unparseable birth date: ..." *)
| UnparseableDeathDate  (* "unparseable death date: ..." *)
| ImportOpen            (* "import: ..." *)
| FileParse             (* "file parse: ..." *)
| RedisFailure.         (* log.Fatal(err) after Dial or Do *)

Inductive result (A : Type) : Type :=
| Ok (a : A)
| Fatal (e : fatal)
| Panic.                (* index out of range *)

Arguments Ok {A} a.
Arguments Fatal {A} e.
Arguments Panic {A}.

#[global] Instance result_ret : MRet result := @Ok.
#[global] Instance result_bind : MBind result := λ A B f m,
  match m with
  | Ok a => f a
  | Fatal e => Fatal e
  | Panic => Panic
  end.

(** [s[i]] on a slice: a panic when [i] is out of range. *)
Definition index {A} (s : list A) (i : nat) : result A :=
  match s !! i with
  | Some x => Ok x
  | None => Panic
  end.

(** ** 64-bit integers and floats *)

Definition wrap64 (z : Z) : Z := (z + 2 ^ 63) mod 2 ^ 64 - 2 ^ 63.

Module float64.

(** [float64(n)] for an [int] [n]: the nearest binary64 value. *)
Definition of_int (z : Z) : float :=
  if z =? - 2 ^ 63 then (-0x1p63)%float
  else if z <? 0 then PrimFloat.opp (PrimFloat.of_uint63 (Uint63.of_Z (- z)))
  else PrimFloat.of_uint63 (Uint63.of_Z z).

(** The integer part of a float, towards zero: the float is split into a
    fraction in [[0.5, 1)] and an exponent, and the 53-bit mantissa of the
    fraction is shifted by the exponent.  (0 for a NaN or an infinity.) *)
Definition trunc (f : float) : Z :=
  let (m, e) := PrimFloat.frshiftexp (PrimFloat.abs f) in
  let k := Uint63.to_Z e - FloatOps.shift - 53 in
  let M := Uint63.to_Z (PrimFloat.normfr_mantissa m) in
  let a := if 0 <=? k then Z.shiftl M k else Z.shiftr M (- k) in
  if PrimFloat.ltb f 0 then - a else a.

(** [int(f)]: truncation towards zero.  Go leaves the conversion of a value
    that does not fit (or of a NaN) to the implementation; no such value
    arises from the day counts of this program. *)
Definition to_int (f : float) : Z := trunc f.

(** The loop of [math.Mod]: while [r >= y], subtract from [r] the multiple
    of [y] by the power of two that brings it just below [r].  Every turn
    lowers the exponent of [r], so the loop ends within the number of
    exponents a binary64 has. *)
Fixpoint mod_loop (fuel : nat) (r y yfr : float) (yexp : int) : float :=
  match fuel with
  | O => r
  | S fuel =>
      if PrimFloat.leb y r then
        let (rfr, rexp) := PrimFloat.frshiftexp r in
        let rexp := if PrimFloat.ltb rfr yfr then (rexp - 1)%uint63 else rexp in
        let k := (rexp - yexp + Uint63.of_Z FloatOps.shift)%uint63 in
        mod_loop fuel (r - PrimFloat.ldshiftexp y k)%float y yfr yexp
      else r
  end.

(** [math.Mod(x, y)]: the floating-point remainder of [x/y], with the sign
    of [x]. *)
Definition Mod (x y : float) : float :=
  if PrimFloat.eqb y 0 || PrimFloat.is_infinity x
     || PrimFloat.is_nan x || PrimFloat.is_nan y
  then PrimFloat.nan
  else
    let y := PrimFloat.abs y in
    let (yfr, yexp) := PrimFloat.frshiftexp y in
    let r := if PrimFloat.ltb x 0 then PrimFloat.opp x else x in
    let r := mod_loop 2100 r y yfr yexp in
    if PrimFloat.ltb x 0 then PrimFloat.opp r else r.

(** The float64 nearest to an integer, as the integer it is: what an
    integer written in decimal becomes when it is read as a float64.  Below
    2^53 in magnitude every integer is a float64; above, the 53 leading bits
    are kept and the rest is rounded, a tie to the even mantissa. *)
Definition nearest (z : Z) : Z :=
  let a := Z.abs z in
  if a <? 2 ^ 53 then z
  else
    let e := Z.log2 a - 52 in
    let q := a / 2 ^ e in
    let r := a mod 2 ^ e in
    let half := 2 ^ (e - 1) in
    let q := if (half <? r) || ((r =? half) && Z.odd q) then q + 1 else q in
    Z.sgn z * (q * 2 ^ e).

End float64.

(** ** The [time] package, for the layout "2006-01-02" *)

Module time.

(** A time instant: seconds since January 1, year 1, 00:00:00 UTC, and
    nanoseconds within the second. *)
Record Time : Set := mkTime { sec : Z; nsec : Z }.

Definition Nanosecond : Z := 1.
Definition Second : Z := 1000000000 * Nanosecond.
Definition Minute : Z := 60 * Second.
Definition Hour : Z := 60 * Minute.
Definition secondsPerDay : Z := 86400.

(** A [Duration] is an [int64] count of nanoseconds. *)
Definition minDuration : Z := - 2 ^ 63.
Definition maxDuration : Z := 2 ^ 63 - 1.

Definition isLeap (year : Z) : bool :=
  (year mod 4 =? 0) && (negb (year mod 100 =? 0) || (year mod 400 =? 0)).

(** [daysBefore[m]]: days in a non-leap year before month [m+1]. *)
Definition daysBefore (m : Z) : Z :=
  match m with
  | 0 => 0 | 1 => 31 | 2 => 59 | 3 => 90 | 4 => 120 | 5 => 151 | 6 => 181
  | 7 => 212 | 8 => 243 | 9 => 273 | 10 => 304 | 11 => 334 | _ => 365
  end.

Definition daysIn (m year : Z) : Z :=
  if (m =? 2) && isLeap year then 29 else daysBefore m - daysBefore (m - 1).

(** Days from January 1 of year 1 to January 1 of [year], by 400-, 100- and
    4-year cycles. *)
Definition daysSinceEpoch (year : Z) : Z :=
  let y := year - 1 in
  let n400 := y / 400 in
  let y := y - 400 * n400 in
  let n100 := y / 100 in
  let y := y - 100 * n100 in
  let n4 := y / 4 in
  let y := y - 4 * n4 in
  146097 * n400 + 36524 * n100 + 1461 * n4 + 365 * y.

(** [time.Date(year, month, day, 0, 0, 0, 0, time.UTC)] *)
Definition Date (year month day : Z) : Time :=
  let d := daysSinceEpoch year + daysBefore (month - 1) in
  let d := if isLeap year && (3 <=? month) then d + 1 else d in
  let d := d + (day - 1) in
  mkTime (d * secondsPerDay) 0.

Definition isDigit (c : ascii) : bool :=
  let n := Z.of_N (N_of_ascii c) in (48 <=? n) && (n <=? 57).

Definition digit (c : ascii) : Z := Z.of_N (N_of_ascii c) - 48.

(** The year, month and day that [time.Parse("2006-01-02", value)] reads:
    four digits of year, two of month and two of day, separated by dashes
    and with nothing after them; the month within 1..12 and the day within
    the month.  [None] is an error. *)
Definition parseFields (value : string) : option (Z * Z * Z) :=
  match value with
  | String y1 (String y2 (String y3 (String y4 (String s1
      (String m1 (String m2 (String s2 (String d1 (String d2 EmptyString))))))))) =>
      if forallb isDigit [y1; y2; y3; y4; m1; m2; d1; d2]
         && Ascii.eqb s1 "-" && Ascii.eqb s2 "-"
      then
        let year := 1000 * digit y1 + 100 * digit y2 + 10 * digit y3 + digit y4 in
        let month := 10 * digit m1 + digit m2 in
        let day := 10 * digit d1 + digit d2 in
        if (month <=? 0) || (12 <? month) then None
        else if (day <? 1) || (daysIn month year <? day) then None
        else Some (year, month, day)
      else None
  | _ => None
  end.

(** [time.Parse("2006-01-02", value)] *)
Definition Parse (value : string) : option Time :=
  match parseFields value with
  | Some (year, month, day) => Some (Date year month day)
  | None => None
  end.

(** [t.Sub(u)]: the duration [t - u]; when it does not fit a [Duration] the
    maximum (or minimum) duration is returned. *)
Definition Sub (t u : Time) : Z :=
  let d := (sec t - sec u) * Second + (nsec t - nsec u) in
  if d <? minDuration then minDuration
  else if maxDuration <? d then maxDuration
  else d.

(** [d.Hours()] *)
Definition Hours (d : Z) : float :=
  let hour := Z.quot d Hour in
  let nsec := Z.rem d Hour in
  (float64.of_int hour + float64.of_int nsec / 3600000000000)%float.

End time.

(** ** Constants and records of the program *)

Definition DB_ADDR : string := "127.0.0.1:6379".
Definition DB_NAME : string := "musicians".
Definition DATE_FMT : string := "2006-01-02".

Record Person : Set := mkPerson {
  Name : string;
  BirthDate : string;
  DeathDate : string
}.

(** [fmt.Sprintf("%s,%s,%s", rec.Name, rec.BirthDate, rec.DeathDate)] *)
Definition Person_String (rec : Person) : string :=
  Name rec +:+ "," +:+ BirthDate rec +:+ "," +:+ DeathDate rec.

(** ** Day counts *)

(** Takes dates as strings in format YYYY-MM-DD and returns the number of days
    between the two dates. *)
Definition getAgeInDays (d1 d2 : string) : result Z :=
  match time.Parse d1 with
  | None => Fatal UnparseableBirthDate
  | Some bd =>
      match time.Parse d2 with
      | None => Fatal UnparseableDeathDate
      | Some dd => Ok (float64.to_int (time.Hours (time.Sub dd bd) / 24)%float)
      end
  end.

(** ** Formatting an age *)

(** The verb [%3d]: decimal, right-justified in a field of width 3. *)
Definition string_of_int (z : Z) : string := NilZero.string_of_int (Z.to_int z).

Fixpoint spaces (n : nat) : string :=
  match n with
  | O => EmptyString
  | S n => String " " (spaces n)
  end.

Definition fmt_3d (z : Z) : string :=
  let s := string_of_int z in
  spaces (3 - String.length s) +:+ s.

Definition daysInYear : float := 365.25%float.

(** Format the age in years and days, dividing the days by 365.25. *)
Definition ageInYears (days : Z) : Z :=
  float64.to_int (float64.of_int days / daysInYear)%float.

Definition ageInDays (days : Z) : Z :=
  float64.to_int (float64.Mod (float64.of_int days) daysInYear).

Definition formatAgeInYearsAndDays (days : Z) : string :=
  fmt_3d (ageInYears days) +:+ " years and " +:+ fmt_3d (ageInDays days) +:+ " days".

(** ** Standard output

    What the program prints, as the sequence of its print calls; [render]
    gives the text of each line. *)

Inductive output : Set :=
| ImportingFrom (file : string)     (* "Importing records from '%s'" *)
| ParsedRecords (n : nat)           (* "Parsed %d records from file" *)
| ImportCompleted                   (* "Successfully completed import into Redis" *)
| YouAreHere (userAge : Z)          (* the marker line of printUserAge *)
| Died (name : string) (age : Z).   (* the line of one record *)

Record io (A : Type) : Type := IO { stdout : list output; outcome : result A }.

Arguments IO {A} stdout outcome.
Arguments stdout {A} i.
Arguments outcome {A} i.

#[global] Instance io_ret : MRet io := λ A a, IO [] (Ok a).
#[global] Instance io_bind : MBind io := λ A B f m,
  match outcome m with
  | Ok a => IO (stdout m ++ stdout (f a)) (outcome (f a))
  | Fatal e => IO (stdout m) (Fatal e)
  | Panic => IO (stdout m) Panic
  end.

Definition lift {A} (r : result A) : io A := IO [] r.
Definition print (o : output) : io unit := IO [o] (Ok tt).

(** [utf8.RuneCountInString]: [fmt] pads a string to a width counted in
    runes; a byte that does not start a well-formed encoding counts as one. *)
Definition byte (c : ascii) : Z := Z.of_N (N_of_ascii c).

Definition in_range (lo hi : Z) (s : string) (i : nat) : bool :=
  match String.get i s with
  | Some c => (lo <=? byte c) && (byte c <=? hi)
  | None => false
  end.

Definition rune_size (c : ascii) (rest : string) : nat :=
  let b := byte c in
  let size : Z :=
    if b <? 128 then 1 else if b <? 194 then 1 else if b <? 224 then 2
    else if b <? 240 then 3 else if b <? 245 then 4 else 1 in
  let '(lo, hi) :=
    if b =? 224 then (160, 191) else if b =? 237 then (128, 159)
    else if b =? 240 then (144, 191) else if b =? 244 then (128, 143)
    else (128, 191) in
  if size <=? 1 then 1%nat
  else if Z.of_nat (String.length rest) <? size - 1 then 1%nat
  else if negb (in_range lo hi rest 0) then 1%nat
  else if size =? 2 then 2%nat
  else if negb (in_range 128 191 rest 1) then 1%nat
  else if size =? 3 then 3%nat
  else if negb (in_range 128 191 rest 2) then 1%nat
  else 4%nat.

Fixpoint rune_count_from (skip : nat) (s : string) : nat :=
  match s with
  | EmptyString => 0
  | String c rest =>
      match skip with
      | S k => rune_count_from k rest
      | O => S (rune_count_from (rune_size c rest - 1) rest)
      end
  end.

Definition RuneCountInString (s : string) : nat := rune_count_from 0 s.

(** The verb [%-30s]: left-justified in a field of 30 runes. *)
Definition fmt_30s (s : string) : string :=
  s +:+ spaces (30 - RuneCountInString s).

Definition newline : string := String (ascii_of_N 10) EmptyString.

Definition render (o : output) : string :=
  match o with
  | ImportingFrom file => "Importing records from '" +:+ file +:+ "'" +:+ newline
  | ParsedRecords n =>
      "Parsed " +:+ string_of_int (Z.of_nat n) +:+ " records from file" +:+ newline
  | ImportCompleted => "Successfully completed import into Redis" +:+ newline
  | YouAreHere userAge =>
      fmt_30s ">>> YOU ARE HERE" +:+ " (     aged "
        +:+ formatAgeInYearsAndDays userAge +:+ ")" +:+ newline
  | Died name age =>
      fmt_30s name +:+ " (died aged " +:+ formatAgeInYearsAndDays age +:+ ")" +:+ newline
  end.

Definition printUserAge (userAge : Z) : io unit := print (YouAreHere userAge).

(** ** The sorted-set store

    A Redis database holds sorted sets by key; a sorted set maps each member
    to its score.  The server holds a score as a float64: the score of a
    ZADD and the bounds of a ZRANGEBYSCORE arrive as decimal integers and
    are read as the nearest float64.  The scores held are therefore
    integers, and the store keeps them as such. *)

Module redis.

Inductive command : Set :=
| MULTI
| DEL (key : string)
| ZADD (key : string) (score : Z) (member : string)
| EXEC.

(** One command applied to the database. *)
Definition apply (d : gmap string (gmap string Z)) (cmd : command)
  : gmap string (gmap string Z) :=
  match cmd with
  | DEL key => delete key d
  | ZADD key score member =>
      <[key := <[member := float64.nearest score]> (default ∅ (d !! key))]> d
  | MULTI | EXEC => d
  end.

(** The server reading a stream of commands from one connection: after
    MULTI the commands are queued, and EXEC applies the queue at once.  A
    stream that ends inside a transaction leaves the database as it was. *)
Fixpoint serve (cmds : list command) (queue : option (list command))
    (d : gmap string (gmap string Z)) : gmap string (gmap string Z) :=
  match cmds with
  | [] => d
  | MULTI :: rest => serve rest (Some []) d
  | EXEC :: rest =>
      match queue with
      | Some q => serve rest None (foldl apply d q)
      | None => serve rest None d
      end
  | cmd :: rest =>
      match queue with
      | Some q => serve rest (Some (q ++ [cmd])) d
      | None => serve rest None (apply d cmd)
      end
  end.

(** A client connection: the database of the server it is connected to and
    the commands written to its output buffer and not yet flushed. *)
Record Conn : Type := mkConn {
  server : gmap string (gmap string Z);
  pending : list command
}.

(** [redis.Dial("tcp", DB_ADDR)]: [None] is a server that cannot be
    reached. *)
Definition Dial (srv : option (gmap string (gmap string Z))) : result Conn :=
  match srv with
  | Some d => Ok (mkConn d [])
  | None => Fatal RedisFailure
  end.

(** [c.Send(cmd)] writes the command to the buffer. *)
Definition Send (c : Conn) (cmd : command) : Conn :=
  mkConn (server c) (pending c ++ [cmd]).

(** [c.Do(cmd)] flushes the buffer with the command and reads the replies. *)
Definition Do (c : Conn) (cmd : command) : Conn :=
  mkConn (serve (pending c ++ [cmd]) None (server c)) [].

(** The order of a sorted set: by score, and by member among equal scores. *)
Definition zle (x y : string * Z) : Prop :=
  x.2 < y.2 ∨ (x.2 = y.2 ∧ String.le x.1 y.1).

#[global] Instance zle_dec x y : Decision (zle x y).
Proof. unfold zle. apply _. Defined.

(** [ZRANGEBYSCORE key min max]: the members with a score in [[min, max]],
    the bounds read as float64, in ascending score order. *)
Definition ZRANGEBYSCORE (d : gmap string (gmap string Z)) (key : string)
    (min max : Z) : list string :=
  let min := float64.nearest min in
  let max := float64.nearest max in
  let z := default ∅ (d !! key) in
  let hits := filter (λ x : string * Z, min <= x.2 <= max) (map_to_list z) in
  (merge_sort zle hits).*1.

End redis.

(** ** Import *)

(** A CSV file as the program meets it: it cannot be opened, or its text is
    not CSV (a stray quote), or it holds lines of comma-separated fields. *)
Inductive csv_source : Type :=
| Unopenable
| Unparsable
| Lines (rows : list (list string)).

(** [reader.ReadAll()] with the reader's default settings: the number of
    fields of the first record is required of every record. *)
Definition ReadAll (rows : list (list string)) : option (list (list string)) :=
  match rows with
  | [] => Some []
  | first :: rest =>
      if forallb (λ r, (length r =? length first)%nat) rest then Some rows else None
  end.

Fixpoint readRows (csvData : list (list string)) (allRecords : list Person)
    : result (list Person) :=
  match csvData with
  | [] => Ok allRecords
  | eachRow :: rest =>
      name ← index eachRow 0;
      birth ← index eachRow 1;
      death ← index eachRow 2;
      readRows rest (allRecords ++ [mkPerson name birth death])
  end.

(** Read and parse the CSV file and return contents as a [Person] array. *)
Definition readCSVFileContents (file : csv_source) : result (list Person) :=
  match file with
  | Unopenable => Fatal ImportOpen
  | Unparsable => Fatal FileParse
  | Lines rows =>
      match ReadAll rows with
      | None => Fatal FileParse
      | Some csvData => readRows csvData []
      end
  end.

Fixpoint sendRecords (c : redis.Conn) (records : list Person) : result redis.Conn :=
  match records with
  | [] => Ok c
  | eachRec :: rest =>
      ageInDays ← getAgeInDays (BirthDate eachRec) (DeathDate eachRec);
      sendRecords
        (redis.Send c (redis.ZADD DB_NAME ageInDays (Person_String eachRec))) rest
  end.

(** The result is the database after the transaction.  On a fatal error
    nothing was committed and the database is the one before the call. *)
Definition storeRecordsInRedis (records : list Person)
    (srv : option (gmap string (gmap string Z)))
    : result (gmap string (gmap string Z)) :=
  c ← redis.Dial srv;
  let c := redis.Send c redis.MULTI in
  let c := redis.Send c (redis.DEL DB_NAME) in
  c ← sendRecords c records;
  Ok (redis.server (redis.Do c redis.EXEC)).

(** Import data from the given file into the Redis instance. *)
Definition doFileImport (importFile : string) (file : csv_source)
    (srv : option (gmap string (gmap string Z)))
    : io (gmap string (gmap string Z)) :=
  print (ImportingFrom importFile);;
  records ← lift (readCSVFileContents file);
  print (ParsedRecords (length records));;
  d ← lift (storeRecordsInRedis records srv);
  print ImportCompleted;;
  mret d.

(** ** Query *)

(** [dateFmtRegex.MatchString]: the pattern [[0-9]{4}-[0-9]{2}-[0-9]{2}]
    occurs somewhere in the string. *)
Definition dateFmtAt (s : string) : bool :=
  match s with
  | String y1 (String y2 (String y3 (String y4 (String s1
      (String m1 (String m2 (String s2 (String d1 (String d2 _))))))))) =>
      forallb time.isDigit [y1; y2; y3; y4; m1; m2; d1; d2]
      && Ascii.eqb s1 "-" && Ascii.eqb s2 "-"
  | _ => false
  end.

Fixpoint dateFmtRegex_MatchString (s : string) : bool :=
  dateFmtAt s ||
  match s with
  | EmptyString => false
  | String _ rest => dateFmtRegex_MatchString rest
  end.

(** [strings.Split(s, sep)] for a separator of one byte. *)
Fixpoint Split (s : string) (sep : ascii) : list string :=
  match s with
  | EmptyString => [EmptyString]
  | String c rest =>
      if Ascii.eqb c sep then EmptyString :: Split rest sep
      else match Split rest sep with
           | field :: fields => String c field :: fields
           | [] => [String c EmptyString]
           end
  end.

(** The loop over the rows fetched; the result is the last age seen. *)
Fixpoint queryRows (userAge : Z) (results : list string) (lastAge : Z) : io Z :=
  match results with
  | [] => mret lastAge
  | row :: rest =>
      let fields := Split row "," in
      name ← lift (index fields 0);
      bday ← lift (index fields 1);
      dday ← lift (index fields 2);
      age ← lift (getAgeInDays bday dday);
      (if (userAge >=? lastAge) && (userAge <? age)
       then printUserAge userAge else mret tt);;
      print (Died name age);;
      queryRows userAge rest age
  end.

(** Lines 110 to 127: the scan of the fetched rows and the marker after it. *)
Definition printResults (userAge : Z) (results : list string) : io unit :=
  lastAge ← queryRows userAge results 0;
  if userAge >=? lastAge then printUserAge userAge else mret tt.

(** [now] is the current date as [time.Now().Format(DATE_FMT)] gives it. *)
Definition doQuery (dateStr : string) (ndays : Z) (now : string)
    (srv : option (gmap string (gmap string Z))) : io unit :=
  if negb (dateFmtRegex_MatchString dateStr) then lift (Fatal InvalidQueryDate)
  else
    userAge ← lift (getAgeInDays dateStr now);
    c ← lift (redis.Dial srv);
    let results :=
      redis.ZRANGEBYSCORE (redis.server c) DB_NAME
        (wrap64 (userAge - ndays)) (wrap64 (userAge + ndays)) in
    printResults userAge results.


(** * Vocabulary of the properties *)

(** [forall_range p lo P]: [P] holds on the [p] integers from [lo] on. *)
Fixpoint forall_range (p : positive) (lo : Z) (P : Z → bool) : bool :=
  match p with
  | xH => P lo
  | xO q => forall_range q lo P && forall_range q (lo + Zpos q) P
  | xI q => P lo && forall_range q (lo + 1) P && forall_range q (lo + 1 + Zpos q) P
  end.

(** The largest number of whole days in a [Duration]. *)
Definition maxDays : Z := 106751.

Definition nanosPerDay : Z := 86400000000000.

(** [int(d.Hours() / 24)] *)
Definition daysOfDuration (d : Z) : Z :=
  float64.to_int (time.Hours d / 24)%float.

(** Years and remaining days in exact arithmetic: the floor of
    days/365.25, and what is left of the days after that many years of
    365.25 days, cut to an integer. *)
Definition daysPerYear : Q := 1461 # 4.

Definition floorYears (days : Z) : Z := Qfloor (inject_Z days / daysPerYear).

Definition truncRemainder (days : Z) : Z :=
  Qfloor (inject_Z days - inject_Z (floorYears days) * daysPerYear).

(** The day number of a calendar date: days since January 1 of year 1. *)
Definition dayNumber (ymd : Z * Z * Z) : Z :=
  let '(year, month, day) := ymd in
  time.daysSinceEpoch year + time.daysBefore (month - 1)
  + (if time.isLeap year && (3 <=? month) then 1 else 0) + (day - 1).

(** Calendar order: by year, then month, then day. *)
Definition date_le (a b : Z * Z * Z) : Prop :=
  let '(y1, m1, d1) := a in
  let '(y2, m2, d2) := b in
  y1 < y2 ∨ (y1 = y2 ∧ (m1 < m2 ∨ (m1 = m2 ∧ d1 <= d2))).

Definition valid_date (ymd : Z * Z * Z) : Prop :=
  let '(year, month, day) := ymd in
  0 <= year <= 9999 ∧ 1 <= month <= 12 ∧ 1 <= day <= time.daysIn month year.

Definition leapDay (year : Z) : Z := if time.isLeap year then 1 else 0.

(** A day count cut off at the longest [Duration]. *)
Definition clampDays (n : Z) : Z := Z.max (- maxDays) (Z.min maxDays n).

(** The number of occurrences of a byte in a string. *)
Fixpoint count_byte (c : ascii) (s : string) : nat :=
  match s with
  | EmptyString => 0
  | String c' rest => (if Ascii.eqb c' c then 1 else 0) + count_byte c rest
  end.

(** What the loop reads from one row: the name and the age at death. *)
Definition rowFields (row : string) : result (string * Z) :=
  let fields := Split row "," in
  name ← index fields 0;
  bday ← index fields 1;
  dday ← index fields 2;
  age ← getAgeInDays bday dday;
  Ok (name, age).

(** The rows that decode to the given names and ages. *)
Definition decoded (rows : list string) (recs : list (string * Z)) : Prop :=
  Forall2 (λ row r, rowFields row = Ok r) rows recs.

Definition died (r : string * Z) : output := Died r.1 r.2.

(** The lines of the scan and of the marker after it, on decoded rows. *)
Fixpoint scan (userAge : Z) (recs : list (string * Z)) (lastAge : Z) : list output :=
  match recs with
  | [] => if userAge >=? lastAge then [YouAreHere userAge] else []
  | r :: rest =>
      (if (userAge >=? lastAge) && (userAge <? r.2) then [YouAreHere userAge] else [])
      ++ died r :: scan userAge rest r.2
  end.

(** The records are in ascending order of age. *)
Definition ascending (recs : list (string * Z)) : Prop := Sorted Z.le recs.*2.

(** The value of [lastAge] after the loop has gone through [recs]. *)
Fixpoint lastAgeAfter (lastAge : Z) (recs : list (string * Z)) : Z :=
  match recs with
  | [] => lastAge
  | r :: rest => lastAgeAfter r.2 rest
  end.

Definition is_marker (o : output) : bool :=
  match o with
  | YouAreHere _ => true
  | _ => false
  end.

(** The number of marker lines printed. *)
Fixpoint count_markers (out : list output) : nat :=
  match out with
  | [] => 0
  | o :: rest => (if is_marker o then 1 else 0) + count_markers rest
  end.

(** Rows with the ages 5, 10, 20 and 30 days. *)
Definition row5 : string := "E,2000-01-01,2000-01-06".
Definition row10 : string := "A,2000-01-01,2000-01-11".
Definition row20 : string := "B,2000-01-01,2000-01-21".
Definition row30 : string := "C,2000-01-01,2000-01-31".

(** The sorted set of the program; a key that is absent is an empty set. *)
Definition contents (d : gmap string (gmap string Z)) : gmap string Z :=
  default ∅ (d !! DB_NAME).

(** The member and score stored for a record. *)
Definition entry (rec : Person) : result (string * Z) :=
  ageInDays ← getAgeInDays (BirthDate rec) (DeathDate rec);
  Ok (Person_String rec, ageInDays).

Definition entries (records : list Person) (es : list (string * Z)) : Prop :=
  Forall2 (λ rec e, entry rec = Ok e) records es.

Definition zadd (e : string * Z) : redis.command := redis.ZADD DB_NAME e.2 e.1.

(** The members added in turn to a sorted set. *)
Definition zadd_all (es : list (string * Z)) (z : gmap string Z) : gmap string Z :=
  foldl (λ z e, <[e.1 := e.2]> z) z es.

(** The database after the transaction of an import. *)
Definition stored (es : list (string * Z)) (d : gmap string (gmap string Z))
    : gmap string (gmap string Z) :=
  foldl redis.apply (delete DB_NAME d) (zadd <$> es).

(** Scores that a float64 holds exactly. *)
Definition exact_score (score : Z) : Prop := - 2 ^ 53 < score < 2 ^ 53.

Definition exact_scores (es : list (string * Z)) : Prop :=
  Forall (λ e, exact_score e.2) es.

Definition recordA : Person := mkPerson "A" "2000-01-01" "2000-01-02".

(** Records of the ages 5, 10, 20 and 30 days, whose serialized forms are
    the rows above. *)
Definition rec5 : Person := mkPerson "E" "2000-01-01" "2000-01-06".
Definition rec10 : Person := mkPerson "A" "2000-01-01" "2000-01-11".
Definition rec20 : Person := mkPerson "B" "2000-01-01" "2000-01-21".
Definition rec30 : Person := mkPerson "C" "2000-01-01" "2000-01-31".

(** The name the query reads from a row. *)
Definition rowName (row : string) : string :=
  match rowFields row with
  | Ok r => r.1
  | _ => EmptyString
  end.

(** The record the import builds from one CSV row. *)
Definition rowPerson (row : list string) : Person :=
  mkPerson (default EmptyString (row !! 0%nat)) (default EmptyString (row !! 1%nat))
           (default EmptyString (row !! 2%nat)).

(** The entry of a record whose dates parse (and an entry that is never
    stored otherwise). *)
Definition entryOf (rec : Person) : string * Z :=
  match entry rec with
  | Ok e => e
  | _ => (EmptyString, 0)
  end.

(** The age a printed line stands for: the age at death of a record line,
    the reference age of the marker line. *)
Definition lineAge (o : output) : option Z :=
  match o with
  | Died _ age => Some age
  | YouAreHere userAge => Some userAge
  | _ => None
  end.

(** The lines of the loop over decoded rows, without the marker after it. *)
Fixpoint loopLines (userAge : Z) (recs : list (string * Z)) (lastAge : Z) : list output :=
  match recs with
  | [] => []
  | r :: rest =>
      (if (userAge >=? lastAge) && (userAge <? r.2) then [YouAreHere userAge] else [])
      ++ died r :: loopLines userAge rest r.2
  end.

(** A string of bytes below 128. *)
Fixpoint is_ascii (s : string) : bool :=
  match s with
  | EmptyString => true
  | String c rest => (byte c <? 128) && is_ascii rest
  end.

(** * Properties *)

(** ** Checking a predicate on an interval by computation *)

Lemma forall_range_spec (p : positive) (lo : Z) (P : Z → bool) :
  forall_range p lo P = true → ∀ z, lo <= z < lo + Zpos p → P z = true.
Proof.
  revert lo. induction p as [q IH | q IH |]; simpl; intros lo H z Hz.
  - apply andb_prop in H as [H H3]. apply andb_prop in H as [H1 H2].
    destruct (decide (z = lo)) as [-> | ?]; [done |].
    destruct (decide (z < lo + 1 + Zpos q)).
    + apply (IH _ H2). lia.
    + apply (IH _ H3). lia.
  - apply andb_prop in H as [H1 H2].
    destruct (decide (z < lo + Zpos q)).
    + apply (IH _ H1). lia.
    + apply (IH _ H2). lia.
  - assert (z = lo) as -> by lia. done.
Qed.

(** ** The float arithmetic on the day counts that occur *)

Lemma Hours_whole_days (n : Z) :
  time.Hours (n * nanosPerDay)
  = (float64.of_int (24 * n) + float64.of_int 0 / 3600000000000)%float.
Proof.
  unfold time.Hours.
  replace (n * nanosPerDay) with (24 * n * time.Hour)
    by (change time.Hour with 3600000000000; unfold nanosPerDay; lia).
  rewrite Z.quot_mul, Z.rem_mul by done. done.
Qed.

Lemma daysOfDuration_checked :
  forall_range 213503 (- maxDays)
    (λ n, float64.to_int
            ((float64.of_int (24 * n) + float64.of_int 0 / 3600000000000) / 24)%float
          =? n) = true.
Proof. vm_compute. reflexivity. Qed.

Lemma daysOfDuration_exact (n : Z) :
  - maxDays <= n <= maxDays → daysOfDuration (n * nanosPerDay) = n.
Proof.
  intros Hn. unfold daysOfDuration. rewrite Hours_whole_days.
  apply Z.eqb_eq.
  apply (forall_range_spec _ _ _ daysOfDuration_checked). unfold maxDays in *. lia.
Qed.

Lemma daysOfDuration_max : daysOfDuration time.maxDuration = maxDays.
Proof. vm_compute. reflexivity. Qed.

Lemma daysOfDuration_min : daysOfDuration time.minDuration = - maxDays.
Proof. vm_compute. reflexivity. Qed.

Lemma floorYears_Z (days : Z) : floorYears days = (4 * days) / 1461.
Proof.
  unfold floorYears, daysPerYear, Qdiv, Qinv, Qmult, Qfloor, inject_Z. simpl.
  f_equal; lia.
Qed.

Lemma truncRemainder_Z (days : Z) : truncRemainder days = ((4 * days) mod 1461) / 4.
Proof.
  unfold truncRemainder. rewrite floorYears_Z.
  unfold daysPerYear, Qminus, Qplus, Qopp, Qmult, Qfloor, inject_Z. simpl.
  change (Z.pos (1 * 4)) with 4. change (Z.pos (1 * (1 * 4))) with 4.
  pose proof (Z.div_mod (4 * days) 1461 ltac:(lia)) as H.
  f_equal. lia.
Qed.

Lemma age_checked :
  forall_range 106752 0
    (λ d, (ageInYears d =? (4 * d) / 1461) && (ageInDays d =? ((4 * d) mod 1461) / 4))
  = true.
Proof. vm_compute. reflexivity. Qed.

Lemma age_exact (days : Z) :
  0 <= days <= maxDays →
  ageInYears days = floorYears days ∧ ageInDays days = truncRemainder days.
Proof.
  intros Hd.
  assert (H := forall_range_spec _ _ _ age_checked days).
  cbv beta in H. unfold maxDays in Hd.
  apply andb_prop in H as [H1 H2]; [| lia].
  rewrite floorYears_Z, truncRemainder_Z. split; by apply Z.eqb_eq.
Qed.

(** ** Calendar dates *)

Lemma Date_sec (year month day : Z) :
  time.Date year month day
  = time.mkTime (dayNumber (year, month, day) * time.secondsPerDay) 0.
Proof.
  unfold time.Date, dayNumber.
  destruct (time.isLeap year && (3 <=? month)); f_equal; lia.
Qed.

Lemma isDigit_digit (c : ascii) : time.isDigit c = true → 0 <= time.digit c <= 9.
Proof.
  unfold time.isDigit, time.digit. cbv zeta.
  generalize (Z.of_N (N_of_ascii c)). intros n [?%Z.leb_le ?%Z.leb_le]%andb_prop. lia.
Qed.

Lemma parseFields_valid (value : string) (ymd : Z * Z * Z) :
  time.parseFields value = Some ymd → valid_date ymd.
Proof.
  unfold time.parseFields.
  destruct value as [| y1 [| y2 [| y3 [| y4 [| s1 [| m1 [| m2 [| s2 [| d1 [| d2 [| ? ?]]]]]]]]]]];
    try discriminate.
  destruct (forallb _ _ && _ && _) eqn:Hfmt; [| discriminate].
  apply andb_prop in Hfmt as [Hfmt _]. apply andb_prop in Hfmt as [Hdigits _].
  simpl in Hdigits.
  repeat match type of Hdigits with
         | _ && _ = true => apply andb_prop in Hdigits as [?%isDigit_digit Hdigits]
         end.
  clear Hdigits.
  match goal with |- context [(?m <=? 0) || (12 <? ?m)] => set (month := m) in * end.
  destruct ((month <=? 0) || (12 <? month)) eqn:Hmonth; [discriminate |].
  match goal with |- context [(?d <? 1) || (time.daysIn month ?y <? ?d)] =>
    set (day := d) in *; set (year := y) in * end.
  destruct ((day <? 1) || (time.daysIn month year <? day)) eqn:Hday; [discriminate |].
  intros [= <-]. unfold valid_date. subst year. lia.
Qed.

(** A string that parses as a date has ten bytes and no comma. *)
Lemma parseFields_length (value : string) :
  is_Some (time.parseFields value) → String.length value = 10%nat.
Proof.
  intros [ymd H]. revert H. unfold time.parseFields.
  by destruct value as [| y1 [| y2 [| y3 [| y4 [| s1 [| m1 [| m2 [| s2 [| d1 [| d2 [| ? ?]]]]]]]]]]].
Qed.

Lemma daysSinceEpoch_succ_checked :
  forall_range 10000 0
    (λ year, time.daysSinceEpoch (year + 1)
             =? time.daysSinceEpoch year + 365 + leapDay year) = true.
Proof. vm_compute. reflexivity. Qed.

Lemma daysSinceEpoch_succ (year : Z) :
  0 <= year <= 9999 →
  time.daysSinceEpoch (year + 1) = time.daysSinceEpoch year + 365 + leapDay year.
Proof.
  intros Hy. apply Z.eqb_eq.
  apply (forall_range_spec _ _ _ daysSinceEpoch_succ_checked). lia.
Qed.

Lemma daysSinceEpoch_mono (y1 y2 : Z) :
  0 <= y1 → y1 <= y2 → y2 <= 10000 →
  time.daysSinceEpoch y1 <= time.daysSinceEpoch y2.
Proof.
  intros H0 H Hmax. revert Hmax.
  replace y2 with (y1 + Z.of_nat (Z.to_nat (y2 - y1))) by lia.
  induction (Z.to_nat (y2 - y1)) as [| n IH]; intros Hmax.
  - replace (y1 + Z.of_nat 0) with y1 by lia. lia.
  - replace (y1 + Z.of_nat (S n)) with (y1 + Z.of_nat n + 1) in * by lia.
    rewrite daysSinceEpoch_succ by lia.
    unfold leapDay. destruct (time.isLeap _); lia.
Qed.

(** The day of the year, from 0, stays within the year. *)
Lemma dayNumber_in_year (year month day : Z) :
  0 <= year <= 9999 → 1 <= month <= 12 → 1 <= day <= time.daysIn month year →
  time.daysSinceEpoch year <= dayNumber (year, month, day)
    < time.daysSinceEpoch (year + 1).
Proof.
  intros Hy Hm Hd. rewrite daysSinceEpoch_succ by done. unfold dayNumber, leapDay.
  unfold time.daysIn in Hd.
  assert (month = 1 ∨ month = 2 ∨ month = 3 ∨ month = 4 ∨ month = 5 ∨ month = 6
          ∨ month = 7 ∨ month = 8 ∨ month = 9 ∨ month = 10 ∨ month = 11
          ∨ month = 12) as Hcases by lia.
  destruct (time.isLeap year);
    repeat (destruct Hcases as [-> | Hcases]; [simpl in *; lia |]);
    subst; simpl in *; lia.
Qed.

Lemma dayNumber_mono (a b : Z * Z * Z) :
  valid_date a → valid_date b → date_le a b → dayNumber a <= dayNumber b.
Proof.
  destruct a as [[y1 m1] d1], b as [[y2 m2] d2].
  intros (Hy1 & Hm1 & Hd1) (Hy2 & Hm2 & Hd2) [Hlt | [-> Hle]].
  - pose proof (dayNumber_in_year y1 m1 d1 Hy1 Hm1 Hd1).
    pose proof (dayNumber_in_year y2 m2 d2 Hy2 Hm2 Hd2).
    pose proof (daysSinceEpoch_mono (y1 + 1) y2). lia.
  - unfold dayNumber. unfold time.daysIn in Hd1, Hd2.
    destruct Hle as [Hlt | [-> Hle]]; [| lia].
    assert (m1 = 1 ∨ m1 = 2 ∨ m1 = 3 ∨ m1 = 4 ∨ m1 = 5 ∨ m1 = 6 ∨ m1 = 7
            ∨ m1 = 8 ∨ m1 = 9 ∨ m1 = 10 ∨ m1 = 11) as H1 by lia.
    assert (m2 = 2 ∨ m2 = 3 ∨ m2 = 4 ∨ m2 = 5 ∨ m2 = 6 ∨ m2 = 7 ∨ m2 = 8
            ∨ m2 = 9 ∨ m2 = 10 ∨ m2 = 11 ∨ m2 = 12) as H2 by lia.
    destruct (time.isLeap y2);
      repeat (destruct H1 as [-> | H1]);
      try subst m1;
      repeat (destruct H2 as [-> | H2]; [simpl in *; lia |]);
      subst; simpl in *; lia.
Qed.

(** ** The day count between two dates *)

Lemma daysOfDuration_Sub (n1 n2 : Z) :
  daysOfDuration
    (time.Sub (time.mkTime (n2 * time.secondsPerDay) 0)
              (time.mkTime (n1 * time.secondsPerDay) 0))
  = clampDays (n2 - n1).
Proof.
  unfold time.Sub, clampDays; simpl.
  change time.Second with 1000000000. change time.secondsPerDay with 86400.
  change time.minDuration with (-9223372036854775808).
  change time.maxDuration with 9223372036854775807.
  replace ((n2 * 86400 - n1 * 86400) * 1000000000 + (0 - 0))
    with ((n2 - n1) * nanosPerDay) by (unfold nanosPerDay; lia).
  unfold nanosPerDay at 1 2. unfold maxDays.
  destruct (Z.ltb_spec ((n2 - n1) * 86400000000000) (-9223372036854775808)).
  - change (-9223372036854775808) with time.minDuration.
    rewrite daysOfDuration_min. unfold maxDays. lia.
  - destruct (Z.ltb_spec 9223372036854775807 ((n2 - n1) * 86400000000000)).
    + change 9223372036854775807 with time.maxDuration.
      rewrite daysOfDuration_max. unfold maxDays. lia.
    + rewrite daysOfDuration_exact; unfold maxDays; lia.
Qed.

Lemma getAgeInDays_spec (d1 d2 : string) (a b : Z * Z * Z) :
  time.parseFields d1 = Some a → time.parseFields d2 = Some b →
  getAgeInDays d1 d2 = Ok (clampDays (dayNumber b - dayNumber a)).
Proof.
  intros Ha Hb. unfold getAgeInDays, time.Parse. rewrite Ha, Hb.
  destruct a as [[y1 m1] dd1], b as [[y2 m2] dd2].
  rewrite !Date_sec, <- daysOfDuration_Sub.
  unfold daysOfDuration. reflexivity.
Qed.

Lemma getAgeInDays_Ok_inv (d1 d2 : string) (n : Z) :
  getAgeInDays d1 d2 = Ok n →
  ∃ a b, time.parseFields d1 = Some a ∧ time.parseFields d2 = Some b
         ∧ n = clampDays (dayNumber b - dayNumber a).
Proof.
  intros H.
  destruct (time.parseFields d1) as [a |] eqn:Ha;
    [| by unfold getAgeInDays, time.Parse in H; rewrite Ha in H].
  destruct (time.parseFields d2) as [b |] eqn:Hb;
    [| unfold getAgeInDays, time.Parse in H; rewrite Ha, Hb in H; by destruct a as [[? ?] ?]].
  rewrite (getAgeInDays_spec _ _ _ _ Ha Hb) in H. injection H as <-. eauto.
Qed.

Lemma clampDays_bounds (n : Z) : - maxDays <= clampDays n <= maxDays.
Proof. unfold clampDays, maxDays. lia. Qed.

Lemma getAgeInDays_bounds (d1 d2 : string) (n : Z) :
  getAgeInDays d1 d2 = Ok n → - maxDays <= n <= maxDays.
Proof. intros (a & b & _ & _ & ->)%getAgeInDays_Ok_inv. apply clampDays_bounds. Qed.

(** ** Scores as float64 *)

(** The rounding written out on integers is the conversion of the binary64
    arithmetic, here around 0, around 2^53 where the integers stop being
    exact, and at both ends of the 64-bit integers. *)
Lemma nearest_checked :
  forall_range 2049 (- 1024)
    (λ z, float64.trunc (float64.of_int z) =? float64.nearest z)
  && forall_range 2049 (2 ^ 53 - 1024)
       (λ z, float64.trunc (float64.of_int z) =? float64.nearest z)
  && forall_range 2049 (- 2 ^ 53 - 1024)
       (λ z, float64.trunc (float64.of_int z) =? float64.nearest z)
  && forall_range 4096 (2 ^ 63 - 4096)
       (λ z, float64.trunc (float64.of_int z) =? float64.nearest z)
  && forall_range 4096 (- 2 ^ 63)
       (λ z, float64.trunc (float64.of_int z) =? float64.nearest z)
  = true.
Proof. vm_compute. reflexivity. Qed.

Lemma nearest_exact (z : Z) : exact_score z → float64.nearest z = z.
Proof.
  unfold exact_score, float64.nearest. intros Hz. cbn zeta.
  by replace (Z.abs z <? 2 ^ 53) with true by lia.
Qed.

Lemma nearest_opp (z : Z) : float64.nearest (- z) = - float64.nearest z.
Proof.
  unfold float64.nearest. cbn zeta. rewrite Z.abs_opp, Z.sgn_opp.
  destruct (Z.abs z <? 2 ^ 53); [done |]. lia.
Qed.

Lemma nearest_large (z : Z) : 2 ^ 53 <= z → 2 ^ 53 <= float64.nearest z.
Proof.
  intros Hz. unfold float64.nearest. cbn zeta.
  assert (0 < z) as Hpos by (change (2 ^ 53) with 9007199254740992 in Hz; lia).
  rewrite Z.abs_eq by lia. replace (z <? 2 ^ 53) with false by lia.
  rewrite (Z.sgn_pos z) by done.
  pose proof (Z.log2_spec z Hpos) as [Hlo _].
  pose proof (Z.log2_le_mono _ _ Hz) as Hlog.
  rewrite (Z.log2_pow2 53) in Hlog by lia.
  set (e := Z.log2 z - 52) in *.
  assert (1 <= e) as He by (unfold e; lia).
  replace (Z.log2 z) with (52 + e) in Hlo by (unfold e; lia).
  rewrite Z.pow_add_r in Hlo by lia.
  assert (2 <= 2 ^ e) as Hpow by (apply (Z.pow_le_mono_r 2 1 e); lia).
  assert (2 ^ 52 <= z / 2 ^ e) as Hq by (apply Z.div_le_lower_bound; lia).
  set (q := z / 2 ^ e) in *.
  change (2 ^ 53) with (2 ^ 52 * 2). change (2 ^ 52) with 4503599627370496 in *.
  match goal with |- context [if ?b then q + 1 else q] => destruct b end; nia.
Qed.

Lemma nearest_large_neg (z : Z) : z <= - 2 ^ 53 → float64.nearest z <= - 2 ^ 53.
Proof.
  intros Hz. pose proof (nearest_large (- z) ltac:(lia)) as H.
  rewrite nearest_opp in H. lia.
Qed.

(** A bound is on the same side of an exact score before and after it is
    read as a float64. *)
Lemma nearest_bounds (min max score : Z) :
  exact_score score →
  float64.nearest min <= score <= float64.nearest max ↔ min <= score <= max.
Proof.
  intros Hs.
  assert (∀ m, (float64.nearest m <= score ↔ m <= score)
               ∧ (score <= float64.nearest m ↔ score <= m)) as H.
  { intros m. unfold exact_score in Hs.
    destruct (decide (2 ^ 53 <= m)) as [Hm | Hm].
    { pose proof (nearest_large m Hm). lia. }
    destruct (decide (m <= - 2 ^ 53)) as [Hm' | Hm'].
    { pose proof (nearest_large_neg m Hm'). lia. }
    rewrite nearest_exact by (unfold exact_score; lia). done. }
  destruct (H min) as [Hmin _], (H max) as [_ Hmax]. rewrite Hmin, Hmax. done.
Qed.

Lemma getAgeInDays_exact (d1 d2 : string) (n : Z) :
  getAgeInDays d1 d2 = Ok n → exact_score n.
Proof.
  intros H%getAgeInDays_bounds. unfold exact_score, maxDays in *.
  change (2 ^ 53) with 9007199254740992. lia.
Qed.

(** ** Splitting on commas *)

Lemma Split_length (s : string) (sep : ascii) :
  length (Split s sep) = S (count_byte sep s).
Proof.
  induction s as [| c rest IH]; [done |]. simpl.
  destruct (Ascii.eqb c sep); simpl; [by rewrite IH |].
  destruct (Split rest sep); simpl in *; lia.
Qed.

Lemma Split_no_sep (s : string) (sep : ascii) :
  count_byte sep s = 0%nat → Split s sep = [s].
Proof.
  induction s as [| c rest IH]; [done |]. simpl.
  destruct (Ascii.eqb c sep); [done |]. intros H. by rewrite IH.
Qed.

Lemma Split_app (a b : string) (sep : ascii) :
  count_byte sep a = 0%nat →
  Split (a +:+ String sep b) sep = a :: Split b sep.
Proof.
  induction a as [| c rest IH]; simpl.
  - by rewrite Ascii.eqb_refl.
  - destruct (Ascii.eqb c sep); [done |]. intros H. by rewrite IH.
Qed.

Lemma count_byte_app (c : ascii) (a b : string) :
  count_byte c (a +:+ b) = (count_byte c a + count_byte c b)%nat.
Proof. induction a as [| c' rest IH]; simpl; [done |]. rewrite IH. lia. Qed.

Lemma isDigit_not_comma (c : ascii) :
  time.isDigit c = true → Ascii.eqb c "," = false.
Proof. intros H. by destruct (Ascii.eqb_spec c ",") as [-> |]. Qed.

Lemma dash_not_comma (c : ascii) : Ascii.eqb c "-" = true → Ascii.eqb c "," = false.
Proof. by intros ->%Ascii.eqb_eq. Qed.

Lemma date_no_comma (value : string) :
  is_Some (time.parseFields value) → count_byte "," value = 0%nat.
Proof.
  intros [ymd H]. revert H. unfold time.parseFields.
  destruct value as [| y1 [| y2 [| y3 [| y4 [| s1 [| m1 [| m2 [| s2 [| d1 [| d2 [| ? ?]]]]]]]]]]];
    try discriminate.
  destruct (forallb _ _ && _ && _) eqn:Hfmt; [| discriminate].
  intros _.
  apply andb_prop in Hfmt as [Hfmt ?%dash_not_comma].
  apply andb_prop in Hfmt as [Hdigits ?%dash_not_comma].
  simpl in Hdigits.
  repeat match type of Hdigits with
         | _ && _ = true => apply andb_prop in Hdigits as [?%isDigit_not_comma Hdigits]
         end.
  simpl. by repeat match goal with H : Ascii.eqb _ _ = false |- _ => rewrite H; clear H end.
Qed.

(** ** The scan of the fetched rows *)

(** The laws of the output monad used below. *)
Lemma io_bind_assoc {A B C} (m : io A) (f : A → io B) (g : B → io C) :
  (m ≫= f) ≫= g = m ≫= (λ x, f x ≫= g).
Proof.
  destruct m as [o [a | e |]]; unfold mbind, io_bind; simpl; [| done | done].
  destruct (f a) as [o' [b | e |]]; simpl; [| done | done].
  by rewrite app_assoc.
Qed.

Lemma bind_lift_Ok {A B} (a : A) (f : A → io B) : lift (Ok a) ≫= f = f a.
Proof. unfold mbind, io_bind, lift; simpl. by destruct (f a). Qed.

Lemma bind_mret {A B} (a : A) (f : A → io B) : mret a ≫= f = f a.
Proof. apply bind_lift_Ok. Qed.

Lemma bind_print {B} (o : output) (f : unit → io B) :
  print o ≫= f = IO (o :: stdout (f tt)) (outcome (f tt)).
Proof. done. Qed.

Ltac io_step :=
  rewrite ?io_bind_assoc; first [rewrite bind_lift_Ok | rewrite bind_mret | rewrite bind_print];
  cbn beta.

Lemma queryRows_decoded (userAge : Z) (rows : list string) (recs : list (string * Z))
    (lastAge : Z) :
  decoded rows recs →
  (lastAge' ← queryRows userAge rows lastAge;
   if userAge >=? lastAge' then printUserAge userAge else mret tt)
  = IO (scan userAge recs lastAge) (Ok tt).
Proof.
  intros Hdec. revert lastAge.
  induction Hdec as [| row [name age] rows recs Hrow _ IH]; intros lastAge.
  - cbn [queryRows scan]. rewrite bind_mret.
    by destruct (userAge >=? lastAge).
  - specialize (IH age). unfold rowFields in Hrow. cbn zeta in Hrow.
    cbn [queryRows scan]. cbn zeta.
    destruct (index (Split row ",") 0) as [name' | |]; try discriminate.
    destruct (index (Split row ",") 1) as [bday | |]; try discriminate.
    destruct (index (Split row ",") 2) as [dday | |]; try discriminate.
    simpl in Hrow. do 3 io_step.
    destruct (getAgeInDays bday dday) as [age' | |]; try discriminate.
    simpl in Hrow. injection Hrow as -> ->. io_step.
    change ((name, age).2) with age.
    destruct ((userAge >=? lastAge) && (userAge <? age)).
    + unfold printUserAge in IH |- *. do 2 io_step. rewrite IH. reflexivity.
    + do 2 io_step. rewrite IH. reflexivity.
Qed.

Lemma printResults_decoded (userAge : Z) (rows : list string) (recs : list (string * Z)) :
  decoded rows recs → printResults userAge rows = IO (scan userAge recs 0) (Ok tt).
Proof. apply queryRows_decoded. Qed.

(** ** Where the marker goes *)

Lemma count_markers_app (a b : list output) :
  count_markers (a ++ b) = (count_markers a + count_markers b)%nat.
Proof. induction a as [| o a IH]; simpl; [done |]. rewrite IH. lia. Qed.

Lemma count_markers_died (recs : list (string * Z)) :
  count_markers (died <$> recs) = 0%nat.
Proof. by induction recs. Qed.

Lemma lastAgeAfter_app (lastAge : Z) (a b : list (string * Z)) :
  lastAgeAfter lastAge (a ++ b) = lastAgeAfter (lastAgeAfter lastAge a) b.
Proof. revert lastAge. induction a as [| r a IH]; intros; simpl; [done |]. apply IH. Qed.

Lemma lastAgeAfter_le (userAge lastAge : Z) (recs : list (string * Z)) :
  lastAge <= userAge → Forall (λ r, r.2 <= userAge) recs →
  lastAgeAfter lastAge recs <= userAge.
Proof.
  intros H Hall. revert lastAge H.
  induction Hall as [| r recs Hr _ IH]; intros; simpl; [done |]. by apply IH.
Qed.

Lemma lastAgeAfter_nonempty_le (userAge lastAge : Z) (recs : list (string * Z)) :
  recs ≠ [] → Forall (λ r, r.2 <= userAge) recs →
  lastAgeAfter lastAge recs <= userAge.
Proof.
  intros Hne Hall. destruct Hall as [| r recs Hr Hall]; [done |].
  simpl. by apply lastAgeAfter_le.
Qed.

(** No marker while the ages stay at or below the reference age. *)
Lemma scan_app_le (userAge lastAge : Z) (pre rest : list (string * Z)) :
  Forall (λ r, r.2 <= userAge) pre →
  scan userAge (pre ++ rest) lastAge
  = (died <$> pre) ++ scan userAge rest (lastAgeAfter lastAge pre).
Proof.
  intros Hall. revert lastAge.
  induction Hall as [| r pre Hr _ IH]; intros lastAge; simpl; [done |].
  replace (userAge <? r.2) with false by lia.
  rewrite andb_false_r. simpl. by rewrite IH.
Qed.

(** No marker once the ages have passed the reference age. *)
Lemma scan_gt (userAge lastAge : Z) (post : list (string * Z)) :
  userAge < lastAge → Forall (λ r, userAge < r.2) post →
  scan userAge post lastAge = died <$> post.
Proof.
  intros Hlast Hall. revert lastAge Hlast.
  induction Hall as [| r post Hr _ IH]; intros lastAge Hlast; simpl.
  - by replace (userAge >=? lastAge) with false by lia.
  - replace (userAge >=? lastAge) with false by lia. simpl. by rewrite IH.
Qed.

Lemma scan_first_gt (userAge lastAge : Z) (r : string * Z) (post : list (string * Z)) :
  userAge < r.2 → Forall (λ x, userAge < x.2) post →
  scan userAge (r :: post) lastAge
  = (if userAge >=? lastAge then [YouAreHere userAge] else []) ++ died r :: (died <$> post).
Proof.
  intros Hr Hall. simpl.
  replace (userAge <? r.2) with true by lia. rewrite andb_true_r.
  by rewrite scan_gt.
Qed.

Lemma ascending_app_inv (pre post : list (string * Z)) :
  ascending (pre ++ post) →
  ascending pre ∧ ascending post
  ∧ ∀ x y, x ∈ pre → y ∈ post → x.2 <= y.2.
Proof.
  unfold ascending. rewrite fmap_app. intros H.
  apply (Sorted_StronglySorted _) in H.
  apply StronglySorted_app in H as (Hle & Hpre & Hpost).
  split_and!; [by apply StronglySorted_Sorted | by apply StronglySorted_Sorted |].
  intros x y Hx Hy. apply Hle; by apply list_elem_of_fmap_2.
Qed.

Lemma ascending_cons_inv (r : string * Z) (post : list (string * Z)) :
  ascending (r :: post) → ascending post ∧ Forall (λ x, r.2 <= x.2) post.
Proof.
  intros H. change (r :: post) with ([r] ++ post) in H.
  apply ascending_app_inv in H as (_ & Hpost & Hle). split; [done |].
  apply Forall_forall. intros x Hx. apply Hle; [apply list_elem_of_here | done].
Qed.

(** In an ascending list, what comes before a record at or below the
    reference age is at or below it too. *)
Lemma ascending_prefix_le (userAge : Z) (pre : list (string * Z)) (r : string * Z)
    (post : list (string * Z)) :
  ascending (pre ++ r :: post) → r.2 <= userAge → Forall (λ x, x.2 <= userAge) pre.
Proof.
  intros H Hr. apply ascending_app_inv in H as (_ & _ & Hle).
  apply Forall_forall. intros x Hx.
  specialize (Hle x r Hx (list_elem_of_here _ _)). lia.
Qed.

Lemma lastAgeAfter_snoc (lastAge : Z) (pre : list (string * Z)) (r : string * Z) :
  lastAgeAfter lastAge (pre ++ [r]) = r.2.
Proof. by rewrite lastAgeAfter_app. Qed.

(** In an ascending list, if the last age before some point is at or below
    the reference age, so is every age before that point. *)
Lemma ascending_last_le (userAge lastAge : Z) (pre : list (string * Z)) :
  ascending pre → pre ≠ [] → lastAgeAfter lastAge pre <= userAge →
  Forall (λ x, x.2 <= userAge) pre.
Proof.
  intros Hasc Hne Hlast.
  destruct (exists_last Hne) as (pre' & r & ->).
  rewrite lastAgeAfter_snoc in Hlast.
  apply Forall_app. split; [| by apply Forall_singleton].
  by apply (ascending_prefix_le _ _ r []).
Qed.

(** The shape of the output on an ascending list: the records at or below
    the reference age, the marker if the last age before it allows, and the
    records above. *)
Lemma scan_ascending (userAge lastAge : Z) (recs : list (string * Z)) :
  ascending recs →
  ∃ pre post,
    recs = pre ++ post
    ∧ Forall (λ r, r.2 <= userAge) pre
    ∧ Forall (λ r, userAge < r.2) post
    ∧ scan userAge recs lastAge
      = (died <$> pre)
        ++ (if userAge >=? lastAgeAfter lastAge pre then [YouAreHere userAge] else [])
        ++ (died <$> post).
Proof.
  revert lastAge. induction recs as [| r rest IH]; intros lastAge Hasc.
  - exists [], []. split_and!; try done. simpl. by rewrite app_nil_r.
  - destruct (ascending_cons_inv _ _ Hasc) as [Hrest Hle].
    destruct (decide (r.2 <= userAge)) as [Hr | Hr].
    + destruct (IH r.2 Hrest) as (pre & post & -> & Hpre & Hpost & Hscan).
      exists (r :: pre), post. split_and!; [done | by constructor | done |].
      simpl. replace (userAge <? r.2) with false by lia.
      rewrite andb_false_r. simpl. by rewrite Hscan.
    + exists [], (r :: rest).
      assert (Forall (λ x, userAge < x.2) rest) as Hgt
        by (eapply Forall_impl; [apply Hle | simpl; intros; lia]).
      split_and!; [done | done | constructor; [lia | done] |].
      rewrite scan_first_gt by (done || lia). done.
Qed.

Lemma decoded_examples :
  decoded [row10; row20; row30] [("A", 10); ("B", 20); ("C", 30)]
  ∧ decoded [row5; row10] [("E", 5); ("A", 10)]
  ∧ decoded [row10; row20] [("A", 10); ("B", 20)].
Proof. split_and!; repeat constructor; by vm_compute. Qed.

(** On rows that are read without an error and whose ages, as the loop
    computes them from the dates in the row, are in ascending order: the
    marker line is printed immediately before the record whose age is above
    the reference age while the age before it (0 at the start) is at or
    below the reference age; and when no record's age is above the reference
    age, the marker is printed once, after all the record lines, provided
    the list is not empty or the reference age is not negative. *)
Lemma printResults_placement (userAge : Z) (rows : list string)
    (recs : list (string * Z)) :
  decoded rows recs → ascending recs →
  (∀ pre r post,
     recs = pre ++ r :: post → lastAgeAfter 0 pre <= userAge → userAge < r.2 →
     printResults userAge rows
     = IO ((died <$> pre) ++ YouAreHere userAge :: died r :: (died <$> post)) (Ok tt))
  ∧ (Forall (λ r, r.2 <= userAge) recs → recs ≠ [] ∨ 0 <= userAge →
     printResults userAge rows = IO ((died <$> recs) ++ [YouAreHere userAge]) (Ok tt)).
Proof.
  intros Hdec Hasc. rewrite (printResults_decoded _ _ _ Hdec). split.
  - intros pre r post -> Hlast Hr. f_equal.
    destruct (ascending_app_inv _ _ Hasc) as (Hpre & Hpost & _).
    apply ascending_cons_inv in Hpost as [_ Hle].
    assert (Forall (λ x, x.2 <= userAge) pre) as Hall.
    { destruct pre as [| x pre]; [done |]. by eapply ascending_last_le. }
    rewrite scan_app_le by done.
    rewrite scan_first_gt; [| done |].
    + by replace (userAge >=? lastAgeAfter 0 pre) with true by lia.
    + eapply Forall_impl; [apply Hle | simpl; intros; lia].
  - intros Hall Hne. f_equal.
    rewrite <- (app_nil_r recs) at 1. rewrite scan_app_le by done. simpl.
    assert (lastAgeAfter 0 recs <= userAge) as Hlast.
    { destruct Hne as [Hne | H0].
      - by apply lastAgeAfter_nonempty_le.
      - by apply lastAgeAfter_le. }
    by replace (userAge >=? lastAgeAfter 0 recs) with true by lia.
Qed.

(** With a reference date after the current date the reference age is
    negative, and on an empty result no marker is printed at all. *)
Lemma no_marker_on_empty_result :
  printResults (-1) [] = IO [] (Ok tt)
  ∧ getAgeInDays "2016-06-02" "2016-06-01" = Ok (-1)
  ∧ doQuery "2016-06-02" 365 "2016-06-01" (Some ∅) = IO [] (Ok tt).
Proof. split_and!; vm_compute; reflexivity. Qed.

(** On such rows, when the reference age equals the age of a record, the
    marker line is printed after that record's line: after all the records
    of that age and before the first record of a greater age. *)
Lemma printResults_tie (userAge : Z) (rows : list string)
    (pre : list (string * Z)) (r : string * Z) (post : list (string * Z)) :
  decoded rows (pre ++ r :: post) → ascending (pre ++ r :: post) → r.2 = userAge →
  ∃ ties above,
    post = ties ++ above
    ∧ Forall (λ x, x.2 = userAge) ties
    ∧ Forall (λ x, userAge < x.2) above
    ∧ printResults userAge rows
      = IO ((died <$> pre) ++ died r :: (died <$> ties)
            ++ YouAreHere userAge :: (died <$> above)) (Ok tt).
Proof.
  intros Hdec Hasc Hr. rewrite (printResults_decoded _ _ _ Hdec).
  assert (Forall (λ x, x.2 <= userAge) pre) as Hpre
    by (eapply ascending_prefix_le; [done | lia]).
  destruct (ascending_app_inv _ _ Hasc) as (_ & Hpost & _).
  apply ascending_cons_inv in Hpost as [Hpost Hle].
  destruct (scan_ascending userAge r.2 post Hpost)
    as (ties & above & -> & Hties & Habove & Hscan).
  exists ties, above. split_and!; [done | | done |].
  - apply Forall_app in Hle as [Hle _].
    rewrite Forall_forall in Hties, Hle. apply Forall_forall. intros x Hx.
    specialize (Hties x Hx). specialize (Hle x Hx). lia.
  - f_equal. rewrite scan_app_le by done.
    cbn [scan]. replace (userAge <? r.2) with false by lia.
    rewrite andb_false_r. cbn [app]. rewrite Hscan.
    assert (lastAgeAfter r.2 ties <= userAge) as Hlast
      by (apply lastAgeAfter_le; [lia | done]).
    by replace (userAge >=? lastAgeAfter r.2 ties) with true by lia.
Qed.

(** For the ages 10 and 20 and the reference age 10, the marker line comes
    after the line of the record of age 10, not before it. *)
Lemma marker_not_before_tie :
  printResults 10 [row10; row20] = IO [Died "A" 10; YouAreHere 10; Died "B" 20] (Ok tt).
Proof. by vm_compute. Qed.

(** The number of markers in the lines of an ascending list. *)
Lemma count_markers_scan (userAge : Z) (recs : list (string * Z)) :
  ascending recs →
  (count_markers (scan userAge recs 0) <= 1)%nat
  ∧ (count_markers (scan userAge recs 0) = 1%nat
     ↔ 0 <= userAge ∨ Exists (λ r, r.2 <= userAge) recs).
Proof.
  intros Hasc.
  destruct (scan_ascending userAge 0 recs Hasc) as (pre & post & -> & Hpre & Hpost & ->).
  rewrite !count_markers_app, !count_markers_died.
  assert (Exists (λ r, r.2 <= userAge) (pre ++ post) ↔ pre ≠ []) as Hex.
  { rewrite Exists_app. split.
    - intros [H | H]; [by destruct H |].
      apply Exists_exists in H as (x & Hx & Hle).
      rewrite Forall_forall in Hpost. specialize (Hpost x Hx). lia.
    - destruct Hpre as [| x pre Hx _]; [done |]. intros _. left. by left. }
  rewrite Hex.
  destruct (userAge >=? lastAgeAfter 0 pre) eqn:Hcmp; simpl.
  - split; [lia |]. split; [| lia]. intros _.
    destruct pre as [| x pre]; [left; simpl in Hcmp; lia | by right].
  - split; [lia |]. split; [lia |].
    intros [H0 | Hne].
    + pose proof (lastAgeAfter_le userAge 0 pre H0 Hpre). lia.
    + pose proof (lastAgeAfter_nonempty_le userAge 0 pre Hne Hpre). lia.
Qed.

(** A query for a date after the current date, on a store that holds one
    record of age 1: the record is printed and the marker is not. *)
Lemma marker_never_printed :
  storeRecordsInRedis [mkPerson "A" "2000-01-01" "2000-01-02"] (Some ∅)
  = Ok {[ DB_NAME := {[ "A,2000-01-01,2000-01-02" := 1 ]} ]}
  ∧ getAgeInDays "2016-06-03" "2016-06-01" = Ok (-2)
  ∧ doQuery "2016-06-03" 365 "2016-06-01"
      (Some {[ DB_NAME := {[ "A,2000-01-01,2000-01-02" := 1 ]} ]})
    = IO [Died "A" 1] (Ok tt)
  ∧ count_markers [Died "A" 1] = 0%nat.
Proof. split_and!; vm_compute; reflexivity. Qed.

(** ** Formatting an age *)

(** Beyond the day counts that occur, the float quotient can round up to the
    next integer: the quotient of this day count by 365.25 is just below
    2^46, and its float value is 2^46. *)
Lemma ageInYears_rounds_up :
  ageInYears (1461 * 2 ^ 44 - 1) = 2 ^ 46
  ∧ floorYears (1461 * 2 ^ 44 - 1) = 2 ^ 46 - 1.
Proof. split; by vm_compute. Qed.

(** C4 (as amended): for every day count from 0 to 106751, the largest the
    day-count function returns, the years printed are the floor of
    days/365.25 and the days printed are days mod 365.25 cut to an integer,
    each right-justified in a field of width 3: "%3d years and %3d days". *)
Theorem formatAge_exact (days : Z) :
  0 <= days <= maxDays →
  ageInYears days = floorYears days
  ∧ ageInDays days = truncRemainder days
  ∧ formatAgeInYearsAndDays days
    = fmt_3d (floorYears days) +:+ " years and "
      +:+ fmt_3d (truncRemainder days) +:+ " days".
Proof.
  intros Hd. destruct (age_exact days Hd) as [Hy Hr].
  split_and!; [done | done |].
  unfold formatAgeInYearsAndDays. by rewrite Hy, Hr.
Qed.

Lemma formatAge_examples :
  formatAgeInYearsAndDays 0 = "  0 years and   0 days"
  ∧ formatAgeInYearsAndDays 365 = "  0 years and 365 days".
Proof.
  split.
  - rewrite (proj2 (proj2 (formatAge_exact 0 ltac:(unfold maxDays; lia)))).
    reflexivity.
  - rewrite (proj2 (proj2 (formatAge_exact 365 ltac:(unfold maxDays; lia)))).
    reflexivity.
Defined.

(** The text for 0 days is padded to the width of the fields. *)
Lemma formatAge_zero_padded :
  formatAgeInYearsAndDays 0 = "  0 years and   0 days"
  ∧ formatAgeInYearsAndDays 0 ≠ "0 years and 0 days".
Proof. split; by vm_compute. Qed.

(** C5 (as amended): 731 days are two years of 365.25 days and half a day:
    the text is "  2 years and   0 days". *)
Theorem formatAge_731 : formatAgeInYearsAndDays 731 = "  2 years and   0 days".
Proof. by vm_compute. Qed.

Lemma formatAge_731_not_one_year :
  ageInYears 731 = 2 ∧ ageInDays 731 = 0
  ∧ formatAgeInYearsAndDays 731 ≠ "1 years and 365 days".
Proof. split_and!; by vm_compute. Qed.

(** ** The day count is signed *)

Lemma clampDays_opp (n : Z) : clampDays (- n) = - clampDays n.
Proof. unfold clampDays, maxDays. lia. Qed.

(** C6: for two valid dates, the day count from the first to the second is
    the opposite of the day count from the second to the first; it is not
    negative when the first date is not after the second; and the day count
    from a date to itself is 0. *)
Theorem day_count_signed (d1 d2 : string) (a b : Z * Z * Z) :
  time.parseFields d1 = Some a → time.parseFields d2 = Some b →
  ∃ n, getAgeInDays d1 d2 = Ok n
       ∧ getAgeInDays d2 d1 = Ok (- n)
       ∧ (date_le a b → 0 <= n)
       ∧ getAgeInDays d1 d1 = Ok 0.
Proof.
  intros Ha Hb. exists (clampDays (dayNumber b - dayNumber a)).
  rewrite (getAgeInDays_spec _ _ _ _ Ha Hb), (getAgeInDays_spec _ _ _ _ Hb Ha),
    (getAgeInDays_spec _ _ _ _ Ha Ha).
  split_and!.
  - done.
  - rewrite <- clampDays_opp. do 2 f_equal. lia.
  - intros Hle.
    pose proof (dayNumber_mono a b (parseFields_valid _ _ Ha) (parseFields_valid _ _ Hb) Hle).
    unfold clampDays, maxDays. lia.
  - by rewrite Z.sub_diag.
Qed.

Lemma day_count_signed_example :
  ∃ n, getAgeInDays "2000-01-01" "2026-10-31" = Ok n
       ∧ getAgeInDays "2026-10-31" "2000-01-01" = Ok (- n)
       ∧ (date_le (2000, 1, 1) (2026, 10, 31) → 0 <= n)
       ∧ getAgeInDays "2000-01-01" "2000-01-01" = Ok 0.
Proof.
  apply (day_count_signed "2000-01-01" "2026-10-31" (2000, 1, 1) (2026, 10, 31));
    reflexivity.
Defined.

(** ** Serialized records *)

Lemma Split_Person_String (rec : Person) :
  count_byte "," (Name rec) = 0%nat →
  count_byte "," (BirthDate rec) = 0%nat →
  count_byte "," (DeathDate rec) = 0%nat →
  Split (Person_String rec) "," = [Name rec; BirthDate rec; DeathDate rec].
Proof.
  intros Hn Hb Hd. unfold Person_String.
  change (Split (Name rec +:+ String "," (BirthDate rec +:+ String "," (DeathDate rec))) ","
          = [Name rec; BirthDate rec; DeathDate rec]).
  rewrite Split_app by done. rewrite Split_app by done.
  by rewrite Split_no_sep.
Qed.

(** C9: a record whose name has no comma (and whose dates are calendar dates)
    splits on commas into its name, birth date and death date, in that order;
    a record whose name has a comma does not, and the query that reads it
    back stops on the field it takes for the birth date. *)
Theorem serialization_round_trip :
  (∀ rec : Person,
     count_byte "," (Name rec) = 0%nat →
     is_Some (time.parseFields (BirthDate rec)) →
     is_Some (time.parseFields (DeathDate rec)) →
     Split (Person_String rec) "," = [Name rec; BirthDate rec; DeathDate rec])
  ∧ (∃ rec : Person,
       count_byte "," (Name rec) ≠ 0%nat
       ∧ is_Some (time.parseFields (BirthDate rec))
       ∧ is_Some (time.parseFields (DeathDate rec))
       ∧ Split (Person_String rec) "," ≠ [Name rec; BirthDate rec; DeathDate rec]
       ∧ rowFields (Person_String rec) = Fatal UnparseableBirthDate).
Proof.
  split.
  - intros rec Hn Hb Hd. apply Split_Person_String; [done | |]; by apply date_no_comma.
  - exists (mkPerson "Brown, James" "1933-05-03" "2006-12-25").
    split_and!; [by vm_compute | by eexists | by eexists | by vm_compute | by vm_compute].
Qed.

Lemma serialization_round_trip_example :
  Split (Person_String (mkPerson "A" "2000-01-01" "2000-01-02")) ","
  = ["A"; "2000-01-01"; "2000-01-02"].
Proof.
  apply (proj1 serialization_round_trip (mkPerson "A" "2000-01-01" "2000-01-02")).
  - reflexivity.
  - by eexists.
  - by eexists.
Defined.

(** ** Index accesses *)

Lemma index_in_bounds {A} (s : list A) (i : nat) :
  (i < length s)%nat → ∃ x, index s i = Ok x.
Proof.
  intros H. unfold index.
  destruct (lookup_lt_is_Some_2 s i H) as [x ->]. eauto.
Qed.

Lemma bind_no_panic {A B} (m : io A) (f : A → io B) :
  outcome m ≠ Panic → (∀ a, outcome (f a) ≠ Panic) → outcome (m ≫= f) ≠ Panic.
Proof.
  intros Hm Hf. unfold mbind, io_bind.
  destruct (outcome m) eqn:Hout; simpl; [apply Hf | done | done].
Qed.

Lemma getAgeInDays_no_panic (d1 d2 : string) : getAgeInDays d1 d2 ≠ Panic.
Proof.
  unfold getAgeInDays.
  destruct (time.Parse d1); [| done]. by destruct (time.Parse d2).
Qed.

Lemma queryRows_no_panic (userAge : Z) (results : list string) (lastAge : Z) :
  Forall (λ row, (2 <= count_byte "," row)%nat) results →
  outcome (queryRows userAge results lastAge) ≠ Panic.
Proof.
  intros Hall. revert lastAge.
  induction Hall as [| row results Hrow _ IH]; intros lastAge; [done |].
  cbn [queryRows]. cbn zeta.
  pose proof (Split_length row ",") as Hlen.
  destruct (index_in_bounds (Split row ",") 0 ltac:(lia)) as [name ->].
  destruct (index_in_bounds (Split row ",") 1 ltac:(lia)) as [bday ->].
  destruct (index_in_bounds (Split row ",") 2 ltac:(lia)) as [dday ->].
  do 3 (rewrite bind_lift_Ok; cbn beta).
  apply bind_no_panic; [apply getAgeInDays_no_panic |].
  intros age. apply bind_no_panic; [by destruct (_ && _) |].
  intros _. apply bind_no_panic; [done |]. intros _. apply IH.
Qed.

Lemma Person_String_commas (rec : Person) :
  (2 <= count_byte "," (Person_String rec))%nat.
Proof.
  unfold Person_String. rewrite !count_byte_app.
  change (count_byte "," ",") with 1%nat. lia.
Qed.

Lemma readRows_in_bounds (rows : list (list string)) (allRecords : list Person) :
  Forall (λ row, (3 <= length row)%nat) rows →
  ∃ records, readRows rows allRecords = Ok records
             ∧ length records = (length allRecords + length rows)%nat.
Proof.
  intros Hall. revert allRecords.
  induction Hall as [| row rows Hrow _ IH]; intros allRecords.
  - exists allRecords. simpl. split; [done | lia].
  - cbn [readRows].
    destruct (index_in_bounds row 0 ltac:(lia)) as [name ->].
    destruct (index_in_bounds row 1 ltac:(lia)) as [birth ->].
    destruct (index_in_bounds row 2 ltac:(lia)) as [death ->].
    simpl. destruct (IH (allRecords ++ [mkPerson name birth death])) as (records & -> & Hlen).
    exists records. split; [done |]. rewrite length_app in Hlen. simpl in *. lia.
Qed.

(** C10: the query reads fields 0, 1 and 2 of each member split on commas and
    the import reads fields 0, 1 and 2 of each CSV row.  When every member has
    at least two commas, as every serialized record has, and every CSV row has
    at least three fields, no access is out of range; a CSV file whose rows
    all have two fields passes the reader and the import then panics on an
    index out of range, which is not a logged fatal error. *)
Theorem index_accesses_in_bounds :
  (∀ userAge results,
     Forall (λ row, (2 <= count_byte "," row)%nat) results →
     outcome (printResults userAge results) ≠ Panic)
  ∧ (∀ rec, (2 <= count_byte "," (Person_String rec))%nat)
  ∧ (∀ rows,
       Forall (λ row : list string, (3 <= length row)%nat) rows →
       readCSVFileContents (Lines rows) ≠ Panic
       ∧ (ReadAll rows = Some rows →
          ∃ records, readCSVFileContents (Lines rows) = Ok records
                     ∧ length records = length rows))
  ∧ (∃ rows,
       rows ≠ []
       ∧ Forall (λ row : list string, (length row < 3)%nat) rows
       ∧ ReadAll rows = Some rows
       ∧ readCSVFileContents (Lines rows) = Panic
       ∧ ∀ e, readCSVFileContents (Lines rows) ≠ Fatal e).
Proof.
  split_and!.
  - intros userAge results Hall. unfold printResults.
    apply bind_no_panic; [by apply queryRows_no_panic |].
    intros lastAge. by destruct (userAge >=? lastAge).
  - apply Person_String_commas.
  - intros rows Hall.
    destruct (readRows_in_bounds rows [] Hall) as (records & Hread & Hlen).
    unfold readCSVFileContents. split.
    + destruct (ReadAll rows) as [csvData |] eqn:HR; [| done].
      assert (csvData = rows) as ->.
      { unfold ReadAll in HR. destruct rows as [| first rest]; [congruence |].
        destruct (forallb _ rest); congruence. }
      by rewrite Hread.
    + intros ->. exists records. by rewrite Hread.
  - exists [["A"; "2000-01-01"]; ["B"; "1990-05-05"]].
    split_and!; [done | repeat constructor | done | done | done].
Qed.

Lemma index_accesses_example :
  outcome (printResults 15 [row10; row20; row30]) ≠ Panic
  ∧ readCSVFileContents (Lines [["A"; "2000-01-01"; "2000-01-02"]]) ≠ Panic.
Proof.
  destruct index_accesses_in_bounds as (Hquery & _ & Hcsv & _). split.
  - apply Hquery. repeat constructor.
  - apply Hcsv. repeat constructor.
Defined.

(** ** The store after an import *)

Lemma entry_inv (rec : Person) (e : string * Z) :
  entry rec = Ok e →
  e.1 = Person_String rec ∧ getAgeInDays (BirthDate rec) (DeathDate rec) = Ok e.2.
Proof.
  unfold entry. destruct (getAgeInDays _ _) as [n | |]; simpl; [| done | done].
  by intros [= <-].
Qed.

Lemma sendRecords_entries (c : redis.Conn) (records : list Person) (es : list (string * Z)) :
  entries records es →
  sendRecords c records
  = Ok (redis.mkConn (redis.server c) (redis.pending c ++ (zadd <$> es))).
Proof.
  intros H. revert c. induction H as [| rec e records es He _ IH]; intros c.
  - simpl. rewrite app_nil_r. by destruct c.
  - apply entry_inv in He as [He1 He2]. cbn [sendRecords]. rewrite He2. simpl.
    rewrite IH. simpl. rewrite <- app_assoc. unfold zadd at 2. by rewrite He1.
Qed.

Lemma sendRecords_Ok_inv (c c' : redis.Conn) (records : list Person) :
  sendRecords c records = Ok c' → ∃ es, entries records es.
Proof.
  revert c. induction records as [| rec records IH]; intros c H.
  - exists []. constructor.
  - cbn [sendRecords] in H.
    destruct (getAgeInDays (BirthDate rec) (DeathDate rec)) as [n | |] eqn:Hage;
      simpl in H; try done.
    destruct (IH _ H) as [es Hes].
    exists ((Person_String rec, n) :: es). constructor; [| done].
    unfold entry. by rewrite Hage.
Qed.

Lemma serve_queued (cmds queue : list redis.command) (d : gmap string (gmap string Z)) :
  Forall (λ cmd, cmd ≠ redis.MULTI ∧ cmd ≠ redis.EXEC) cmds →
  redis.serve (cmds ++ [redis.EXEC]) (Some queue) d
  = foldl redis.apply d (queue ++ cmds).
Proof.
  intros H. revert queue. induction H as [| cmd cmds [? ?] _ IH]; intros queue.
  - simpl. by rewrite app_nil_r.
  - simpl. destruct cmd; try done; by rewrite IH, <- app_assoc.
Qed.

Lemma storeRecordsInRedis_entries (records : list Person) (es : list (string * Z))
    (d : gmap string (gmap string Z)) :
  entries records es → storeRecordsInRedis records (Some d) = Ok (stored es d).
Proof.
  intros H. unfold storeRecordsInRedis. simpl.
  rewrite (sendRecords_entries _ _ _ H). simpl. f_equal.
  rewrite serve_queued; [done |].
  apply Forall_fmap, Forall_true. done.
Qed.

Lemma storeRecordsInRedis_Ok_inv (records : list Person)
    (d d1 : gmap string (gmap string Z)) :
  storeRecordsInRedis records (Some d) = Ok d1 →
  ∃ es, entries records es ∧ d1 = stored es d.
Proof.
  intros H.
  assert (∃ es, entries records es) as [es Hes].
  { unfold storeRecordsInRedis in H. simpl in H.
    destruct (sendRecords _ records) as [c' | |] eqn:Hsend; try done.
    by eapply sendRecords_Ok_inv. }
  exists es. split; [done |].
  rewrite (storeRecordsInRedis_entries _ _ _ Hes) in H. by injection H.
Qed.

(** The scores of an import are day counts, which a float64 holds
    exactly. *)
Lemma entries_exact (records : list Person) (es : list (string * Z)) :
  entries records es → exact_scores es.
Proof.
  intros H. unfold exact_scores.
  induction H as [| rec e records es He _ IH]; constructor; [| done].
  apply entry_inv in He as [_ He]. by eapply getAgeInDays_exact.
Qed.

Lemma foldl_zadd (es : list (string * Z)) (x : gmap string (gmap string Z))
    (z : gmap string Z) :
  exact_scores es → x !! DB_NAME = Some z →
  foldl redis.apply x (zadd <$> es) = <[DB_NAME := zadd_all es z]> x.
Proof.
  intros Hex. revert x z. induction Hex as [| e es He _ IH]; intros x z Hx.
  - simpl. by rewrite insert_id.
  - simpl. rewrite Hx. simpl. rewrite (nearest_exact _ He).
    rewrite (IH _ (<[e.1 := e.2]> z)) by apply lookup_insert_eq.
    by rewrite insert_insert_eq.
Qed.

Lemma stored_cons (e : string * Z) (es : list (string * Z))
    (d : gmap string (gmap string Z)) :
  exact_scores (e :: es) →
  stored (e :: es) d = <[DB_NAME := zadd_all (e :: es) ∅]> d.
Proof.
  intros [He Hes]%Forall_cons.
  unfold stored. simpl. rewrite lookup_delete_eq. simpl. rewrite (nearest_exact _ He).
  rewrite (foldl_zadd es _ (<[e.1 := e.2]> ∅)) by (done || apply lookup_insert_eq).
  by rewrite insert_insert_eq, insert_delete_eq.
Qed.

Lemma contents_stored (es : list (string * Z)) (d : gmap string (gmap string Z)) :
  exact_scores es → contents (stored es d) = zadd_all es ∅.
Proof.
  intros Hex. destruct es as [| e es].
  - unfold contents, stored. simpl. by rewrite lookup_delete_eq.
  - rewrite stored_cons by done. unfold contents. by rewrite lookup_insert_eq.
Qed.

Lemma delete_stored (es : list (string * Z)) (d : gmap string (gmap string Z)) :
  exact_scores es → delete DB_NAME (stored es d) = delete DB_NAME d.
Proof.
  intros Hex. destruct es as [| e es].
  - unfold stored. simpl. apply delete_delete_eq.
  - rewrite stored_cons by done. apply delete_insert_eq.
Qed.

Lemma stored_stored (es : list (string * Z)) (d : gmap string (gmap string Z)) :
  exact_scores es → stored es (stored es d) = stored es d.
Proof. intros Hex. unfold stored at 1. by rewrite delete_stored. Qed.

(** What a sorted set holds after the members were added. *)
Lemma zadd_all_lookup_Some (es : list (string * Z)) (z : gmap string Z)
    (member : string) (score : Z) :
  zadd_all es z !! member = Some score →
  (member, score) ∈ es ∨ z !! member = Some score.
Proof.
  revert z. induction es as [| e es IH]; intros z H; [by right |].
  simpl in H. destruct (IH _ H) as [Hin | Hz].
  - left. by right.
  - apply lookup_insert_Some in Hz as [[<- <-] | [_ Hz]].
    + left. destruct e. apply list_elem_of_here.
    + by right.
Qed.

Lemma zadd_all_lookup_notin (es : list (string * Z)) (z : gmap string Z) (member : string) :
  member ∉ es.*1 → zadd_all es z !! member = z !! member.
Proof.
  revert z. induction es as [| e es IH]; intros z H; [done |].
  simpl in *. apply not_elem_of_cons in H as [Hne Hnotin].
  rewrite IH by done. by rewrite lookup_insert_ne.
Qed.

(** When a member determines its score, every member added holds it. *)
Lemma zadd_all_lookup_elem (es : list (string * Z)) (z : gmap string Z) (e : string * Z) :
  (∀ e1 e2, e1 ∈ es → e2 ∈ es → e1.1 = e2.1 → e1.2 = e2.2) →
  e ∈ es → zadd_all es z !! e.1 = Some e.2.
Proof.
  revert z e. induction es as [| e0 es IH]; intros z e Hfun Hin; [by apply elem_of_nil in Hin |].
  simpl.
  assert (∀ e1 e2, e1 ∈ es → e2 ∈ es → e1.1 = e2.1 → e1.2 = e2.2) as Hfun'
    by (intros e1 e2 H1 H2; apply Hfun; by right).
  destruct (decide (e.1 ∈ es.*1)) as [Hkey | Hkey].
  - apply list_elem_of_fmap in Hkey as (e' & Hk & He').
    rewrite Hk, (Hfun e e' Hin ltac:(by right) Hk). by apply IH.
  - rewrite zadd_all_lookup_notin by done.
    apply elem_of_cons in Hin as [-> | Hin].
    + apply lookup_insert_eq.
    + destruct Hkey. by apply list_elem_of_fmap_2.
Qed.

Lemma zadd_all_size_le (es : list (string * Z)) (z : gmap string Z) :
  (size (zadd_all es z) <= size z + length es)%nat.
Proof.
  revert z. induction es as [| e es IH]; intros z; [simpl; lia |].
  change (zadd_all (e :: es) z) with (zadd_all es (<[e.1 := e.2]> z)).
  specialize (IH (<[e.1 := e.2]> z)).
  pose proof (map_size_insert e.1 e.2 z) as Hsize.
  destruct (z !! e.1); unfold id in Hsize; simpl; lia.
Qed.

Lemma zadd_all_size_NoDup (es : list (string * Z)) (z : gmap string Z) :
  NoDup es.*1 → (∀ member, member ∈ es.*1 → z !! member = None) →
  size (zadd_all es z) = (size z + length es)%nat.
Proof.
  revert z. induction es as [| e es IH]; intros z Hnd Hfresh; [simpl; lia |].
  change (zadd_all (e :: es) z) with (zadd_all es (<[e.1 := e.2]> z)).
  simpl in Hnd. apply NoDup_cons in Hnd as [Hnotin Hnd].
  rewrite IH; [| done |].
  - rewrite map_size_insert_None; [simpl; lia |]. apply Hfresh. simpl. apply list_elem_of_here.
  - intros member Hm. rewrite lookup_insert_ne.
    + apply Hfresh. simpl. by right.
    + intros Heq. apply Hnotin. by rewrite Heq.
Qed.

(** A serialized record determines the record when its dates are calendar
    dates: the last 22 bytes are the two dates and their commas. *)
Lemma length_append (a b : string) :
  String.length (a +:+ b) = (String.length a + String.length b)%nat.
Proof.
  induction a as [| c a IH]; [done |].
  change (String c a +:+ b) with (String c (a +:+ b)). simpl. by rewrite IH.
Qed.

Lemma append_inj_length (a b x y : string) :
  String.length x = String.length y → a +:+ x = b +:+ y → a = b ∧ x = y.
Proof.
  intros Hlen. revert b. induction a as [| c a IH]; intros [| c' b] H.
  - done.
  - change (x = String c' (b +:+ y)) in H.
    rewrite H in Hlen. simpl in Hlen. rewrite length_append in Hlen. lia.
  - change (String c (a +:+ x) = y) in H.
    rewrite <- H in Hlen. simpl in Hlen. rewrite length_append in Hlen. lia.
  - change (String c (a +:+ x) = String c' (b +:+ y)) in H.
    injection H as -> H. destruct (IH _ H) as [-> ->]. done.
Qed.

Lemma Person_String_inj (rec1 rec2 : Person) :
  is_Some (time.parseFields (BirthDate rec1)) →
  is_Some (time.parseFields (DeathDate rec1)) →
  is_Some (time.parseFields (BirthDate rec2)) →
  is_Some (time.parseFields (DeathDate rec2)) →
  Person_String rec1 = Person_String rec2 → rec1 = rec2.
Proof.
  intros Hb1%parseFields_length Hd1%parseFields_length
         Hb2%parseFields_length Hd2%parseFields_length.
  destruct rec1 as [n1 b1 d1], rec2 as [n2 b2 d2]. unfold Person_String. simpl in *.
  intros H.
  apply append_inj_length in H as [-> H];
    [| rewrite !length_append; simpl; lia].
  apply (inj (String.app ",")) in H.
  apply append_inj_length in H as [-> H];
    [| rewrite !length_append; simpl; lia].
  by apply (inj (String.app ",")) in H as ->.
Qed.

Lemma entry_dates (rec : Person) (e : string * Z) :
  entry rec = Ok e →
  is_Some (time.parseFields (BirthDate rec)) ∧ is_Some (time.parseFields (DeathDate rec)).
Proof.
  intros [_ H]%entry_inv.
  apply getAgeInDays_Ok_inv in H as (a & b & -> & -> & _). eauto.
Qed.

Lemma entries_elem_of (records : list Person) (es : list (string * Z)) (e : string * Z) :
  entries records es → e ∈ es → ∃ rec, rec ∈ records ∧ entry rec = Ok e.
Proof.
  intros H He. apply list_elem_of_lookup in He as [i Hi].
  destruct (Forall2_lookup_r _ _ _ _ _ H Hi) as (rec & Hrec & Hentry).
  exists rec. split; [| done]. by eapply list_elem_of_lookup_2.
Qed.

Lemma entries_elem_of_l (records : list Person) (es : list (string * Z)) (rec : Person) :
  entries records es → rec ∈ records → ∃ e, e ∈ es ∧ entry rec = Ok e.
Proof.
  intros H Hrec. apply list_elem_of_lookup in Hrec as [i Hi].
  destruct (Forall2_lookup_l _ _ _ _ _ H Hi) as (e & He & Hentry).
  exists e. split; [| done]. by eapply list_elem_of_lookup_2.
Qed.

(** In the entries of an import the member determines the score. *)
Lemma entries_functional (records : list Person) (es : list (string * Z)) :
  entries records es →
  ∀ e1 e2, e1 ∈ es → e2 ∈ es → e1.1 = e2.1 → e1.2 = e2.2.
Proof.
  intros H e1 e2 H1 H2 Heq.
  destruct (entries_elem_of _ _ _ H H1) as (rec1 & _ & Hr1).
  destruct (entries_elem_of _ _ _ H H2) as (rec2 & _ & Hr2).
  destruct (entry_dates _ _ Hr1) as [? ?], (entry_dates _ _ Hr2) as [? ?].
  destruct (entry_inv _ _ Hr1) as [Hm1 Hs1], (entry_inv _ _ Hr2) as [Hm2 Hs2].
  assert (rec1 = rec2) as -> by (apply Person_String_inj; congruence).
  congruence.
Qed.

Lemma entries_NoDup (records : list Person) (es : list (string * Z)) :
  entries records es → NoDup records → NoDup es.*1.
Proof.
  intros H. induction H as [| rec e records es He Hes IH]; intros Hnd; [constructor |].
  apply NoDup_cons in Hnd as [Hnotin Hnd]. simpl. constructor; [| by apply IH].
  intros (e' & Hk & He')%list_elem_of_fmap.
  destruct (entries_elem_of _ _ _ Hes He') as (rec' & Hrec' & Hentry').
  destruct (entry_dates _ _ He) as [? ?], (entry_dates _ _ Hentry') as [? ?].
  destruct (entry_inv _ _ He) as [Hm1 _], (entry_inv _ _ Hentry') as [Hm2 _].
  assert (rec = rec') as -> by (apply Person_String_inj; congruence).
  done.
Qed.

Lemma storeRecordsInRedis_again (records : list Person)
    (d d1 : gmap string (gmap string Z)) :
  storeRecordsInRedis records (Some d) = Ok d1 →
  storeRecordsInRedis records (Some d1) = Ok d1.
Proof.
  intros (es & Hes & ->)%storeRecordsInRedis_Ok_inv.
  rewrite (storeRecordsInRedis_entries _ _ _ Hes).
  by rewrite stored_stored by (by eapply entries_exact).
Qed.

(** C7: when an import succeeds, importing the same records again leaves the
    store as it is; the store then holds, for every record, its serialized
    form with its age in days as the score, and nothing else: one entry per
    row, and as many entries as rows when no row is repeated. *)
Theorem import_twice (records : list Person) (d d1 : gmap string (gmap string Z)) :
  storeRecordsInRedis records (Some d) = Ok d1 →
  storeRecordsInRedis records (Some d1) = Ok d1
  ∧ (∀ rec, rec ∈ records →
       ∃ score, getAgeInDays (BirthDate rec) (DeathDate rec) = Ok score
                ∧ contents d1 !! Person_String rec = Some score)
  ∧ (∀ member score, contents d1 !! member = Some score →
       ∃ rec, rec ∈ records ∧ Person_String rec = member
              ∧ getAgeInDays (BirthDate rec) (DeathDate rec) = Ok score)
  ∧ (size (contents d1) <= length records)%nat
  ∧ (NoDup records → size (contents d1) = length records).
Proof.
  intros Hstore. split; [by eapply storeRecordsInRedis_again |].
  apply storeRecordsInRedis_Ok_inv in Hstore as (es & Hes & ->).
  rewrite contents_stored by (by eapply entries_exact).
  pose proof (Forall2_length _ _ _ Hes) as Hlen.
  split_and!.
  - intros rec Hrec.
    destruct (entries_elem_of_l _ _ _ Hes Hrec) as (e & He & Hentry).
    destruct (entry_inv _ _ Hentry) as [Hm Hs].
    exists e.2. split; [done |]. rewrite <- Hm.
    apply zadd_all_lookup_elem; [by eapply entries_functional | done].
  - intros member score [Hin | Hempty]%zadd_all_lookup_Some; [| by rewrite lookup_empty in Hempty].
    destruct (entries_elem_of _ _ _ Hes Hin) as (rec & Hrec & Hentry).
    destruct (entry_inv _ _ Hentry) as [Hm Hs]. eauto.
  - pose proof (zadd_all_size_le es ∅) as H. rewrite map_size_empty in H. lia.
  - intros Hnd. rewrite zadd_all_size_NoDup.
    + rewrite map_size_empty. lia.
    + by eapply entries_NoDup.
    + intros. apply lookup_empty.
Qed.

Lemma import_twice_example :
  ∃ d1,
    storeRecordsInRedis [mkPerson "A" "2000-01-01" "2000-01-02"] (Some ∅) = Ok d1
    ∧ storeRecordsInRedis [mkPerson "A" "2000-01-01" "2000-01-02"] (Some d1) = Ok d1
    ∧ size (contents d1) = 1%nat.
Proof.
  destruct (storeRecordsInRedis [mkPerson "A" "2000-01-01" "2000-01-02"] (Some ∅))
    as [d1 | |] eqn:H; try (vm_compute in H; discriminate).
  exists d1. destruct (import_twice _ _ _ H) as (Hagain & _ & _ & _ & Hsize).
  split_and!; [done | done |]. apply Hsize. repeat constructor; set_solver.
Defined.

(** The same for the whole import of a file. *)
Corollary doFileImport_twice (importFile : string) (file : csv_source)
    (d d1 : gmap string (gmap string Z)) :
  outcome (doFileImport importFile file (Some d)) = Ok d1 →
  outcome (doFileImport importFile file (Some d1)) = Ok d1.
Proof.
  unfold doFileImport, mbind, io_bind, lift, print, mret, io_ret; simpl.
  destruct (readCSVFileContents file) as [records | |]; simpl; try done.
  destruct (storeRecordsInRedis records (Some d)) as [d' | |] eqn:H; simpl; try done.
  intros [= ->]. by rewrite (storeRecordsInRedis_again _ _ _ H).
Qed.

(** ** Import, then query *)

Lemma ZRANGEBYSCORE_singleton (d : gmap string (gmap string Z)) (member : string)
    (score min max : Z) :
  contents d = {[ member := score ]} → exact_score score →
  redis.ZRANGEBYSCORE d DB_NAME min max
  = if decide (min <= score <= max) then [member] else [].
Proof.
  unfold redis.ZRANGEBYSCORE. fold (contents d). intros -> Hex. cbn zeta.
  rewrite map_to_list_singleton, filter_cons, filter_nil. simpl.
  pose proof (nearest_bounds min max score Hex) as Hb.
  destruct (decide (float64.nearest min <= score <= float64.nearest max)) as [H | H],
    (decide (min <= score <= max)) as [H' | H']; try done; tauto.
Qed.

(** A window that does not leave the 64-bit integers is not wrapped. *)
Lemma window_no_wrap (userAge ndays : Z) :
  - maxDays <= userAge <= maxDays → 0 <= ndays <= 2 ^ 62 →
  wrap64 (userAge - ndays) = userAge - ndays
  ∧ wrap64 (userAge + ndays) = userAge + ndays.
Proof.
  unfold maxDays, wrap64. intros Hu Hn.
  change (2 ^ 62) with 4611686018427387904 in Hn.
  change (2 ^ 63) with 9223372036854775808.
  change (2 ^ 64) with 18446744073709551616.
  split; rewrite Z.mod_small; lia.
Qed.

(** C8 (as amended): after the import of the record A, born 2000-01-01 and
    dead the next day, a query for 2000-01-01 fetches exactly that record, and
    prints it with the age of 1 day, when the score 1 lies in the window
    around the reference age, which is the day count from 2000-01-01 to the
    current date; otherwise it fetches nothing. *)
Theorem round_trip_single (d : gmap string (gmap string Z)) (now : string)
    (ndays userAge : Z) :
  getAgeInDays "2000-01-01" now = Ok userAge →
  ∃ d1,
    storeRecordsInRedis [recordA] (Some d) = Ok d1
    ∧ (wrap64 (userAge - ndays) <= 1 <= wrap64 (userAge + ndays) →
       redis.ZRANGEBYSCORE d1 DB_NAME (wrap64 (userAge - ndays)) (wrap64 (userAge + ndays))
       = [Person_String recordA]
       ∧ doQuery "2000-01-01" ndays now (Some d1)
         = IO ((if (userAge >=? 0) && (userAge <? 1) then [YouAreHere userAge] else [])
               ++ Died "A" 1 :: (if userAge >=? 1 then [YouAreHere userAge] else []))
              (Ok tt))
    ∧ (¬ (wrap64 (userAge - ndays) <= 1 <= wrap64 (userAge + ndays)) →
       redis.ZRANGEBYSCORE d1 DB_NAME (wrap64 (userAge - ndays)) (wrap64 (userAge + ndays))
       = []
       ∧ doQuery "2000-01-01" ndays now (Some d1)
         = IO (if userAge >=? 0 then [YouAreHere userAge] else []) (Ok tt)).
Proof.
  intros Hage.
  assert (entries [recordA] [(Person_String recordA, 1)]) as Hes
    by (repeat constructor; by vm_compute).
  exists (stored [(Person_String recordA, 1)] d).
  split; [by apply storeRecordsInRedis_entries |].
  assert (∀ min max,
            redis.ZRANGEBYSCORE (stored [(Person_String recordA, 1)] d) DB_NAME min max
            = if decide (min <= 1 <= max) then [Person_String recordA] else []) as Hrange.
  { intros. apply ZRANGEBYSCORE_singleton; [| by vm_compute].
    rewrite contents_stored by (by eapply entries_exact). simpl.
    apply insert_empty. }
  assert (doQuery "2000-01-01" ndays now (Some (stored [(Person_String recordA, 1)] d))
            = printResults userAge
                (redis.ZRANGEBYSCORE (stored [(Person_String recordA, 1)] d) DB_NAME
                   (wrap64 (userAge - ndays)) (wrap64 (userAge + ndays)))) as Hquery.
  { unfold doQuery.
    change (dateFmtRegex_MatchString "2000-01-01") with true. cbn [negb].
    rewrite Hage, bind_lift_Ok. simpl redis.Dial. by rewrite bind_lift_Ok. }
  rewrite Hquery, Hrange. split; intros Hwin.
  - rewrite decide_True by done. split; [done |].
    by rewrite (printResults_decoded userAge _ [("A", 1)])
      by (repeat constructor; by vm_compute).
  - rewrite decide_False by done. split; [done |].
    by rewrite (printResults_decoded userAge [] []) by constructor.
Qed.

Lemma round_trip_single_example :
  ∃ d1,
    storeRecordsInRedis [recordA] (Some ∅) = Ok d1
    ∧ redis.ZRANGEBYSCORE d1 DB_NAME (wrap64 (1 - 1)) (wrap64 (1 + 1))
      = [Person_String recordA]
    ∧ doQuery "2000-01-01" 1 "2000-01-02" (Some d1)
      = IO [Died "A" 1; YouAreHere 1] (Ok tt).
Proof.
  destruct (round_trip_single ∅ "2000-01-02" 1 1 ltac:(by vm_compute))
    as (d1 & Hstore & Hin & _).
  exists d1. split; [done |]. apply Hin.
  destruct (window_no_wrap 1 1) as [-> ->]; [unfold maxDays; lia | lia |]. lia.
Defined.

(** Queried on 2016-01-01 with a window of one day, the record of age 1 is
    not fetched: the reference age is 5844 days. *)
Lemma round_trip_single_far :
  storeRecordsInRedis [recordA] (Some ∅)
  = Ok {[ DB_NAME := {[ "A,2000-01-01,2000-01-02" := 1 ]} ]}
  ∧ getAgeInDays "2000-01-01" "2016-01-01" = Ok 5844
  ∧ redis.ZRANGEBYSCORE {[ DB_NAME := {[ "A,2000-01-01,2000-01-02" := 1 ]} ]} DB_NAME
      (wrap64 (5844 - 1)) (wrap64 (5844 + 1)) = []
  ∧ doQuery "2000-01-01" 1 "2016-01-01"
      (Some {[ DB_NAME := {[ "A,2000-01-01,2000-01-02" := 1 ]} ]})
    = IO [YouAreHere 5844] (Ok tt).
Proof. split_and!; vm_compute; reflexivity. Qed.

(** ** The rows a query fetches after an import

    The rows fetched from a store that an import has filled decode, and
    their ages are the scores, in ascending order: the premises of the marker
    theorems hold for them when no name has a comma. *)

#[global] Instance zle_total : Total redis.zle.
Proof.
  intros [m1 s1] [m2 s2]. unfold redis.zle. simpl.
  destruct (Z.lt_trichotomy s1 s2) as [? | [-> | ?]]; [by left; left | | by right; left].
  destruct (total String.le m1 m2); [left | right]; by right.
Qed.

Lemma rowFields_entry (rec : Person) (e : string * Z) :
  entry rec = Ok e → count_byte "," (Name rec) = 0%nat →
  rowFields e.1 = Ok (Name rec, e.2).
Proof.
  intros He Hname.
  destruct (entry_dates _ _ He) as [Hb Hd], (entry_inv _ _ He) as [-> Hage].
  unfold rowFields. cbn zeta.
  rewrite Split_Person_String by (done || by apply date_no_comma).
  simpl. by rewrite Hage.
Qed.

Lemma ZRANGEBYSCORE_elem (d : gmap string (gmap string Z)) (min max : Z) :
  ∃ hits : list (string * Z),
    redis.ZRANGEBYSCORE d DB_NAME min max = hits.*1
    ∧ Sorted Z.le hits.*2
    ∧ ∀ member score,
        (member, score) ∈ hits
        ↔ contents d !! member = Some score
          ∧ float64.nearest min <= score <= float64.nearest max.
Proof.
  unfold redis.ZRANGEBYSCORE. fold (contents d). cbn zeta.
  set (hits := filter (λ x : string * Z,
                         float64.nearest min <= x.2 <= float64.nearest max)
                 (map_to_list (contents d))).
  exists (merge_sort redis.zle hits). split_and!.
  - done.
  - apply (Sorted_fmap snd redis.zle Z.le); [| apply (Sorted_merge_sort _)].
    intros x y [? | [? _]]; lia.
  - intros member score. rewrite merge_sort_Permutation. unfold hits.
    rewrite list_elem_of_filter, elem_of_map_to_list. simpl. tauto.
Qed.

Lemma query_after_import (records : list Person) (d d1 : gmap string (gmap string Z))
    (min max : Z) :
  storeRecordsInRedis records (Some d) = Ok d1 →
  Forall (λ rec, count_byte "," (Name rec) = 0%nat) records →
  ∃ recs, decoded (redis.ZRANGEBYSCORE d1 DB_NAME min max) recs ∧ ascending recs.
Proof.
  intros (es & Hes & ->)%storeRecordsInRedis_Ok_inv Hnames.
  destruct (ZRANGEBYSCORE_elem (stored es d) min max) as (hits & -> & Hsorted & Hhits).
  exists ((λ x, (rowName x.1, x.2)) <$> hits). split.
  - unfold decoded. apply Forall2_fmap, Forall_Forall2_diag, Forall_forall.
    intros [member score] Hx. simpl.
    apply Hhits in Hx as [Hx _].
    rewrite contents_stored in Hx by (by eapply entries_exact).
    apply zadd_all_lookup_Some in Hx as [Hx | Hx]; [| by rewrite lookup_empty in Hx].
    destruct (entries_elem_of _ _ _ Hes Hx) as (rec & Hrec & Hentry).
    rewrite Forall_forall in Hnames.
    pose proof (rowFields_entry rec (member, score) Hentry (Hnames _ Hrec)) as Hrow.
    simpl in Hrow. unfold rowName. by rewrite Hrow.
  - unfold ascending. by rewrite <- list_fmap_compose.
Qed.

(** A string that parses as a date matches the pattern of the query date. *)
Lemma parseFields_dateFmt (value : string) :
  is_Some (time.parseFields value) → dateFmtRegex_MatchString value = true.
Proof.
  intros [ymd H]. revert H. unfold time.parseFields.
  destruct value as [| y1 [| y2 [| y3 [| y4 [| s1 [| m1 [| m2 [| s2 [| d1 [| d2 [| ? ?]]]]]]]]]]];
    try discriminate.
  destruct (forallb _ _ && _ && _) eqn:Hfmt; [| discriminate].
  intros _. cbn [dateFmtRegex_MatchString dateFmtAt]. by rewrite Hfmt.
Qed.

(** The whole pipeline: after an import of records whose names have no
    comma, a query for a date that is not after the current date ends
    without an error and prints the marker exactly once. *)
Lemma doQuery_after_import (records : list Person) (d d1 : gmap string (gmap string Z))
    (dateStr now : string) (ndays userAge : Z) :
  storeRecordsInRedis records (Some d) = Ok d1 →
  Forall (λ rec, count_byte "," (Name rec) = 0%nat) records →
  getAgeInDays dateStr now = Ok userAge → 0 <= userAge →
  outcome (doQuery dateStr ndays now (Some d1)) = Ok tt
  ∧ count_markers (stdout (doQuery dateStr ndays now (Some d1))) = 1%nat.
Proof.
  intros Hstore Hnames Hage Hpos.
  destruct (query_after_import records d d1
              (wrap64 (userAge - ndays)) (wrap64 (userAge + ndays)) Hstore Hnames)
    as (recs & Hdec & Hasc).
  apply getAgeInDays_Ok_inv in Hage as Hparse. destruct Hparse as (a & b & Ha & _ & _).
  unfold doQuery. rewrite parseFields_dateFmt by eauto. cbn [negb].
  rewrite Hage, bind_lift_Ok. simpl redis.Dial. rewrite bind_lift_Ok. cbn zeta.
  simpl redis.server. rewrite (printResults_decoded _ _ _ Hdec). cbn [outcome stdout].
  split; [done |]. apply count_markers_scan; [done | by left].
Qed.

(** The text of two lines. *)
Example render_examples :
  render (YouAreHere 5844)
  = ">>> YOU ARE HERE               (     aged  16 years and   0 days)" +:+ newline
  ∧ render (Died "A" 1)
    = "A                              (died aged   0 years and   1 days)" +:+ newline.
Proof. split; vm_compute; reflexivity. Qed.

(** * Further properties of the day count *)

Lemma dayNumber_month_lt (year m1 d1 m2 d2 : Z) :
  valid_date (year, m1, d1) → valid_date (year, m2, d2) → m1 < m2 →
  dayNumber (year, m1, d1) < dayNumber (year, m2, d2).
Proof.
  intros (_ & Hm1 & Hd1) (_ & Hm2 & Hd2) Hlt.
  unfold dayNumber. unfold time.daysIn in Hd1, Hd2.
  assert (m1 = 1 ∨ m1 = 2 ∨ m1 = 3 ∨ m1 = 4 ∨ m1 = 5 ∨ m1 = 6 ∨ m1 = 7
          ∨ m1 = 8 ∨ m1 = 9 ∨ m1 = 10 ∨ m1 = 11) as H1 by lia.
  assert (m2 = 2 ∨ m2 = 3 ∨ m2 = 4 ∨ m2 = 5 ∨ m2 = 6 ∨ m2 = 7 ∨ m2 = 8
          ∨ m2 = 9 ∨ m2 = 10 ∨ m2 = 11 ∨ m2 = 12) as H2 by lia.
  destruct (time.isLeap year);
    repeat (destruct H1 as [-> | H1]);
    try subst m1;
    repeat (destruct H2 as [-> | H2]; [simpl in *; lia |]);
    subst; simpl in *; lia.
Qed.

Lemma dayNumber_lt (a b : Z * Z * Z) :
  valid_date a → valid_date b → date_le a b → a ≠ b → dayNumber a < dayNumber b.
Proof.
  destruct a as [[y1 m1] d1], b as [[y2 m2] d2].
  intros Ha Hb [Hlt | [-> Hle]] Hne.
  - destruct Ha as (Hy1 & Hm1 & Hd1), Hb as (Hy2 & Hm2 & Hd2).
    pose proof (dayNumber_in_year y1 m1 d1 Hy1 Hm1 Hd1).
    pose proof (dayNumber_in_year y2 m2 d2 Hy2 Hm2 Hd2).
    pose proof (daysSinceEpoch_mono (y1 + 1) y2). lia.
  - destruct Hle as [Hlt | [-> Hle]]; [by apply dayNumber_month_lt |].
    assert (d1 ≠ d2) by congruence. unfold dayNumber. lia.
Qed.

Lemma date_le_total (a b : Z * Z * Z) : date_le a b ∨ date_le b a.
Proof. destruct a as [[y1 m1] d1], b as [[y2 m2] d2]. unfold date_le. lia. Qed.

Lemma dayNumber_inj (a b : Z * Z * Z) :
  valid_date a → valid_date b → dayNumber a = dayNumber b → a = b.
Proof.
  intros Ha Hb Heq. destruct (decide (a = b)) as [| Hne]; [done |].
  destruct (date_le_total a b).
  - pose proof (dayNumber_lt a b Ha Hb ltac:(done) Hne). lia.
  - pose proof (dayNumber_lt b a Hb Ha ltac:(done) ltac:(congruence)). lia.
Qed.

Lemma daysSinceEpoch_years (y1 y2 : Z) :
  0 <= y1 → y1 <= y2 → y2 <= 10000 →
  365 * (y2 - y1) <= time.daysSinceEpoch y2 - time.daysSinceEpoch y1.
Proof.
  intros H0 H Hmax. revert Hmax.
  replace y2 with (y1 + Z.of_nat (Z.to_nat (y2 - y1))) by lia.
  induction (Z.to_nat (y2 - y1)) as [| n IH]; intros Hmax.
  - replace (y1 + Z.of_nat 0) with y1 by lia. lia.
  - replace (y1 + Z.of_nat (S n)) with (y1 + Z.of_nat n + 1) in * by lia.
    rewrite daysSinceEpoch_succ by lia.
    unfold leapDay. destruct (time.isLeap _); lia.
Qed.

(** X1: between two valid dates the day count is 0 exactly when they are the
    same calendar date. *)
Theorem day_count_zero_iff (d1 d2 : string) (a b : Z * Z * Z) :
  time.parseFields d1 = Some a → time.parseFields d2 = Some b →
  getAgeInDays d1 d2 = Ok 0 ↔ a = b.
Proof.
  intros Ha Hb. rewrite (getAgeInDays_spec _ _ _ _ Ha Hb). split.
  - intros [= H]. apply dayNumber_inj; [by eapply parseFields_valid .. |].
    unfold clampDays, maxDays in H. lia.
  - intros ->. by rewrite Z.sub_diag.
Qed.

Lemma day_count_zero_iff_example :
  getAgeInDays "2000-02-29" "2000-02-29" = Ok 0 ↔ (2000, 2, 29) = (2000, 2, 29).
Proof. apply (day_count_zero_iff "2000-02-29" "2000-02-29"); reflexivity. Defined.

(** X2: day counts add up along the calendar: for valid dates d1 <= d2 <= d3
    whose overall count is below the cut-off of 106751 days, the count from
    d1 to d3 is the sum of the counts from d1 to d2 and from d2 to d3. *)
Theorem day_count_additive (d1 d2 d3 : string) (a b c : Z * Z * Z) (n13 : Z) :
  time.parseFields d1 = Some a → time.parseFields d2 = Some b →
  time.parseFields d3 = Some c →
  date_le a b → date_le b c →
  getAgeInDays d1 d3 = Ok n13 → n13 < maxDays →
  ∃ n12 n23,
    getAgeInDays d1 d2 = Ok n12 ∧ getAgeInDays d2 d3 = Ok n23
    ∧ 0 <= n12 ∧ 0 <= n23 ∧ n13 = n12 + n23.
Proof.
  intros Ha Hb Hc Hab Hbc.
  rewrite (getAgeInDays_spec _ _ _ _ Ha Hc), (getAgeInDays_spec _ _ _ _ Ha Hb),
    (getAgeInDays_spec _ _ _ _ Hb Hc).
  intros [= <-] Hlt.
  pose proof (dayNumber_mono a b (parseFields_valid _ _ Ha) (parseFields_valid _ _ Hb) Hab).
  pose proof (dayNumber_mono b c (parseFields_valid _ _ Hb) (parseFields_valid _ _ Hc) Hbc).
  eexists _, _. split_and!; [done | done | | |]; unfold clampDays, maxDays in *; lia.
Qed.

Lemma day_count_additive_example :
  ∃ n12 n23,
    getAgeInDays "2000-01-01" "2010-06-15" = Ok n12
    ∧ getAgeInDays "2010-06-15" "2026-10-31" = Ok n23
    ∧ 0 <= n12 ∧ 0 <= n23 ∧ 9800 = n12 + n23.
Proof.
  apply (day_count_additive "2000-01-01" "2010-06-15" "2026-10-31"
           (2000, 1, 1) (2010, 6, 15) (2026, 10, 31) 9800);
    try reflexivity; try (unfold date_le, maxDays; lia).
Defined.

(** X3: the day count never leaves the range of -106751 to 106751 days, the
    longest [Duration]: two valid dates whose years are at least 294 apart
    count as exactly 106751 days (and -106751 in the other direction). *)
Theorem day_count_saturates (d1 d2 : string) (y1 m1 dd1 y2 m2 dd2 : Z) :
  time.parseFields d1 = Some (y1, m1, dd1) → time.parseFields d2 = Some (y2, m2, dd2) →
  (∃ n, getAgeInDays d1 d2 = Ok n ∧ - maxDays <= n <= maxDays)
  ∧ (y1 + 294 <= y2 →
     getAgeInDays d1 d2 = Ok maxDays ∧ getAgeInDays d2 d1 = Ok (- maxDays)).
Proof.
  intros Ha Hb.
  rewrite (getAgeInDays_spec _ _ _ _ Ha Hb), (getAgeInDays_spec _ _ _ _ Hb Ha).
  split; [eexists; split; [done | apply clampDays_bounds] |].
  intros Hyears.
  destruct (parseFields_valid _ _ Ha) as (Hy1 & Hm1 & Hd1).
  destruct (parseFields_valid _ _ Hb) as (Hy2 & Hm2 & Hd2).
  pose proof (dayNumber_in_year y1 m1 dd1 Hy1 Hm1 Hd1).
  pose proof (dayNumber_in_year y2 m2 dd2 Hy2 Hm2 Hd2).
  pose proof (daysSinceEpoch_years (y1 + 1) y2 ltac:(lia) ltac:(lia) ltac:(lia)).
  split; f_equal; unfold clampDays, maxDays; lia.
Qed.

Lemma day_count_saturates_example :
  (∃ n, getAgeInDays "1685-03-31" "2000-01-01" = Ok n ∧ - maxDays <= n <= maxDays)
  ∧ (1685 + 294 <= 2000 →
     getAgeInDays "1685-03-31" "2000-01-01" = Ok maxDays
     ∧ getAgeInDays "2000-01-01" "1685-03-31" = Ok (- maxDays)).
Proof.
  apply (day_count_saturates "1685-03-31" "2000-01-01" 1685 3 31 2000 1 1); reflexivity.
Defined.

(** X19: when the day count fails.  The first date is looked at first: the
    error is that of the birth date whenever the first string is no date,
    that of the death date when the first is a date and the second is not,
    and there is no other failure and no panic; a count is returned only for
    two strings of ten bytes that name a day of the calendar (a month from 1
    to 12 and a day that the month has in that year). *)
Theorem getAgeInDays_errors (d1 d2 : string) :
  (getAgeInDays d1 d2 = Fatal UnparseableBirthDate ↔ time.parseFields d1 = None)
  ∧ (getAgeInDays d1 d2 = Fatal UnparseableDeathDate
     ↔ is_Some (time.parseFields d1) ∧ time.parseFields d2 = None)
  ∧ getAgeInDays d1 d2 ≠ Panic
  ∧ (∀ n, getAgeInDays d1 d2 = Ok n →
          ∃ a b, time.parseFields d1 = Some a ∧ time.parseFields d2 = Some b
                 ∧ valid_date a ∧ valid_date b
                 ∧ String.length d1 = 10%nat ∧ String.length d2 = 10%nat).
Proof.
  split_and!.
  - unfold getAgeInDays, time.Parse.
    destruct (time.parseFields d1) as [[[y1 m1] dd1] |]; [| done].
    destruct (time.parseFields d2) as [[[y2 m2] dd2] |]; by split.
  - unfold getAgeInDays, time.Parse.
    destruct (time.parseFields d1) as [[[y1 m1] dd1] |].
    + destruct (time.parseFields d2) as [[[y2 m2] dd2] |]; split; intros H; try done;
        first [by destruct H | by split; [eexists |]].
    + split; [done |]. by intros [[? ?] _].
  - apply getAgeInDays_no_panic.
  - intros n (a & b & Ha & Hb & _)%getAgeInDays_Ok_inv.
    exists a, b. split_and!; try done.
    + by eapply parseFields_valid.
    + by eapply parseFields_valid.
    + apply parseFields_length; eauto.
    + apply parseFields_length; eauto.
Qed.

(** * Further properties of the import *)

Lemma index_lookup {A} (s : list A) (i : nat) (x : A) :
  s !! i = Some x → index s i = Ok x.
Proof. unfold index. by intros ->. Qed.

Lemma readRows_rowPerson (rows : list (list string)) (allRecords : list Person) :
  Forall (λ row, (3 <= length row)%nat) rows →
  readRows rows allRecords = Ok (allRecords ++ (rowPerson <$> rows)).
Proof.
  intros Hall. revert allRecords.
  induction Hall as [| row rows Hrow _ IH]; intros allRecords.
  - simpl. by rewrite app_nil_r.
  - cbn [readRows].
    destruct (lookup_lt_is_Some_2 row 0 ltac:(lia)) as [name Hname].
    destruct (lookup_lt_is_Some_2 row 1 ltac:(lia)) as [birth Hbirth].
    destruct (lookup_lt_is_Some_2 row 2 ltac:(lia)) as [death Hdeath].
    assert (rowPerson row = mkPerson name birth death) as Hperson
      by (unfold rowPerson; by rewrite Hname, Hbirth, Hdeath).
    rewrite (index_lookup _ _ _ Hname), (index_lookup _ _ _ Hbirth),
      (index_lookup _ _ _ Hdeath). simpl.
    rewrite IH, <- app_assoc. simpl. by rewrite Hperson.
Qed.

Lemma readRows_short (row : list string) (rest : list (list string))
    (allRecords : list Person) :
  (length row < 3)%nat → readRows (row :: rest) allRecords = Panic.
Proof.
  intros Hlen. cbn [readRows]. unfold index.
  destruct row as [| f0 [| f1 [| f2 row]]]; simpl in *; try done. lia.
Qed.

Lemma ReadAll_uniform (rows : list (list string)) (n : nat) :
  Forall (λ row, length row = n) rows → ReadAll rows = Some rows.
Proof.
  intros H. destruct H as [| first rest Hfirst Hrest]; [done |]. simpl.
  replace (forallb _ rest) with true; [done |].
  symmetry. apply forallb_forall. intros row Hin.
  rewrite Forall_forall in Hrest. apply Nat.eqb_eq.
  rewrite (Hrest row) by (by apply list_elem_of_In). done.
Qed.

Lemma ReadAll_Some_uniform (rows csvData : list (list string)) :
  ReadAll rows = Some csvData →
  csvData = rows ∧ ∃ n, Forall (λ row, length row = n) rows.
Proof.
  destruct rows as [| first rest]; simpl.
  - intros [= <-]. split; [done |]. exists 0%nat. constructor.
  - destruct (forallb _ rest) eqn:Hall; [| done]. intros [= <-]. split; [done |].
    exists (length first). constructor; [done |].
    apply Forall_forall. intros row Hin.
    rewrite forallb_forall in Hall. apply Nat.eqb_eq, Hall. by apply list_elem_of_In.
Qed.

Lemma readCSVFileContents_rows (rows : list (list string)) (n : nat) :
  Forall (λ row, length row = n) rows → (3 <= n)%nat →
  readCSVFileContents (Lines rows) = Ok (rowPerson <$> rows).
Proof.
  intros Huni Hn. unfold readCSVFileContents.
  rewrite (ReadAll_uniform _ _ Huni).
  apply (readRows_rowPerson rows []).
  eapply Forall_impl; [done |]. simpl. intros row ->. done.
Qed.

(** X4: what reading a CSV file gives.  When every row has the same number
    of fields and that number is at least three, the records are the first
    three fields of each row, in the order of the file, and further fields
    are dropped; when that number is below three (and the file is not empty)
    the import panics on an index out of range; when the rows differ in their
    number of fields it stops with a file parse error. *)
Theorem readCSVFileContents_outcomes (rows : list (list string)) :
  (∀ n, Forall (λ row, length row = n) rows → (3 <= n)%nat →
        readCSVFileContents (Lines rows) = Ok (rowPerson <$> rows))
  ∧ (∀ n, Forall (λ row, length row = n) rows → rows ≠ [] → (n < 3)%nat →
          readCSVFileContents (Lines rows) = Panic)
  ∧ ((∀ n, ¬ Forall (λ row, length row = n) rows) →
     readCSVFileContents (Lines rows) = Fatal FileParse).
Proof.
  split_and!.
  - apply readCSVFileContents_rows.
  - intros n Huni Hne Hn. unfold readCSVFileContents.
    rewrite (ReadAll_uniform _ _ Huni).
    destruct Huni as [| row rest Hrow _]; [done |].
    apply readRows_short. lia.
  - intros Hnon. unfold readCSVFileContents.
    destruct (ReadAll rows) as [csvData |] eqn:HR; [| done].
    apply ReadAll_Some_uniform in HR as [_ [n Hn]]. by destruct (Hnon n).
Qed.

Lemma storeRecordsInRedis_no_panic (records : list Person)
    (srv : option (gmap string (gmap string Z))) :
  storeRecordsInRedis records srv ≠ Panic.
Proof.
  unfold storeRecordsInRedis. destruct srv as [d |]; [| done]. simpl.
  generalize (redis.Send (redis.Send (redis.mkConn d []) redis.MULTI) (redis.DEL DB_NAME)).
  induction records as [| rec records IH]; intros c; [done |].
  cbn [sendRecords].
  pose proof (getAgeInDays_no_panic (BirthDate rec) (DeathDate rec)).
  destruct (getAgeInDays _ _) as [n | e |]; simpl; [apply IH | done | done].
Qed.

(** X5: the lines of an import.  For a file whose rows all have the same
    number of fields, at least three, the import prints the file name and
    the number of rows before it looks at any date; it prints the line of
    completion only when the transaction was executed, and an import that
    stops on a date has printed the first two lines only. *)
Theorem doFileImport_lines (importFile : string) (rows : list (list string)) (n : nat)
    (srv : option (gmap string (gmap string Z))) :
  Forall (λ row, length row = n) rows → (3 <= n)%nat →
  (∀ d1, storeRecordsInRedis (rowPerson <$> rows) srv = Ok d1 →
         doFileImport importFile (Lines rows) srv
         = IO [ImportingFrom importFile; ParsedRecords (length rows); ImportCompleted]
              (Ok d1))
  ∧ (∀ e, storeRecordsInRedis (rowPerson <$> rows) srv = Fatal e →
          doFileImport importFile (Lines rows) srv
          = IO [ImportingFrom importFile; ParsedRecords (length rows)] (Fatal e))
  ∧ ((∃ d1, storeRecordsInRedis (rowPerson <$> rows) srv = Ok d1)
     ∨ (∃ e, storeRecordsInRedis (rowPerson <$> rows) srv = Fatal e)).
Proof.
  intros Huni Hn.
  pose proof (readCSVFileContents_rows rows n Huni Hn) as Hread.
  unfold doFileImport. rewrite Hread.
  rewrite bind_print. cbn beta. rewrite bind_lift_Ok, bind_print. cbn beta.
  rewrite length_fmap.
  pose proof (storeRecordsInRedis_no_panic (rowPerson <$> rows) srv) as Hnp.
  destruct (storeRecordsInRedis (rowPerson <$> rows) srv) as [d1 | e |]; [| | done].
  - split_and!; [| done | left; eauto]. by intros ? [= <-].
  - split_and!; [done | | right; eauto]. by intros ? [= <-].
Qed.

Lemma doFileImport_lines_example :
  (∀ d1, storeRecordsInRedis (rowPerson <$> [["A"; "2000-01-01"; "2000-01-02"]]) (Some ∅)
         = Ok d1 →
         doFileImport "musicians.csv" (Lines [["A"; "2000-01-01"; "2000-01-02"]]) (Some ∅)
         = IO [ImportingFrom "musicians.csv"; ParsedRecords 1; ImportCompleted] (Ok d1))
  ∧ (∀ e, storeRecordsInRedis (rowPerson <$> [["A"; "2000-01-01"; "2000-01-02"]]) (Some ∅)
          = Fatal e →
          doFileImport "musicians.csv" (Lines [["A"; "2000-01-01"; "2000-01-02"]]) (Some ∅)
          = IO [ImportingFrom "musicians.csv"; ParsedRecords 1] (Fatal e))
  ∧ ((∃ d1, storeRecordsInRedis (rowPerson <$> [["A"; "2000-01-01"; "2000-01-02"]])
              (Some ∅) = Ok d1)
     ∨ (∃ e, storeRecordsInRedis (rowPerson <$> [["A"; "2000-01-01"; "2000-01-02"]])
               (Some ∅) = Fatal e)).
Proof.
  apply (doFileImport_lines "musicians.csv" [["A"; "2000-01-01"; "2000-01-02"]] 3 (Some ∅)).
  - repeat constructor.
  - lia.
Defined.

Lemma entries_nil_iff (records : list Person) (es : list (string * Z)) :
  entries records es → es = [] ↔ records = [].
Proof. intros H. destruct H; split; done. Qed.

(** X6: an import touches one key only.  Every other key of the database is
    as it was, and the key of the program is absent afterwards exactly when
    the file had no rows: importing an empty file removes the data set. *)
Theorem import_frame (records : list Person) (d d1 : gmap string (gmap string Z)) :
  storeRecordsInRedis records (Some d) = Ok d1 →
  (∀ key, key ≠ DB_NAME → d1 !! key = d !! key)
  ∧ (d1 !! DB_NAME = None ↔ records = [])
  ∧ (records = [] → d1 = delete DB_NAME d).
Proof.
  intros (es & Hes & ->)%storeRecordsInRedis_Ok_inv.
  pose proof (entries_nil_iff _ _ Hes) as Hnil.
  pose proof (entries_exact _ _ Hes) as Hex.
  destruct es as [| e es].
  - unfold stored. simpl. split_and!.
    + intros key Hkey. by rewrite lookup_delete_ne.
    + rewrite lookup_delete_eq. split; [intros _; by apply Hnil | done].
    + done.
  - rewrite stored_cons by done. split_and!.
    + intros key Hkey. by rewrite lookup_insert_ne.
    + rewrite lookup_insert_eq. split; [done |]. intros Hrec.
      by apply Hnil in Hrec.
    + intros Hrec. by apply Hnil in Hrec.
Qed.

Lemma import_frame_example :
  ∃ d1,
    storeRecordsInRedis [] (Some {[ DB_NAME := {[ "old" := 7 ]}; "other" := ∅ ]}) = Ok d1
    ∧ d1 !! "other" = Some ∅ ∧ d1 !! DB_NAME = None.
Proof.
  destruct (storeRecordsInRedis [] (Some {[ DB_NAME := {[ "old" := 7 ]}; "other" := ∅ ]}))
    as [d1 | |] eqn:H; try (vm_compute in H; discriminate).
  exists d1. destruct (import_frame _ _ _ H) as (Hframe & Hkey & _).
  split_and!; [done | | by apply Hkey].
  rewrite Hframe by done. by vm_compute.
Defined.

(** The set after an import has a member with a score exactly when that pair
    is an entry of the import. *)
Lemma zadd_all_lookup_iff (es : list (string * Z)) (member : string) (score : Z) :
  (∀ e1 e2, e1 ∈ es → e2 ∈ es → e1.1 = e2.1 → e1.2 = e2.2) →
  zadd_all es ∅ !! member = Some score ↔ (member, score) ∈ es.
Proof.
  intros Hfun. split.
  - intros [H | H]%zadd_all_lookup_Some; [done | by rewrite lookup_empty in H].
  - intros H. by apply (zadd_all_lookup_elem es ∅ (member, score)).
Qed.

Lemma entries_entryOf (records : list Person) (es : list (string * Z)) :
  entries records es → es = entryOf <$> records.
Proof.
  intros H. induction H as [| rec e records es He _ IH]; [done |].
  simpl. unfold entryOf at 1. rewrite He. by rewrite IH.
Qed.

Lemma entries_of_Forall (records : list Person) :
  Forall (λ rec, ∃ e, entry rec = Ok e) records → entries records (entryOf <$> records).
Proof.
  intros H. induction H as [| rec records [e He] _ IH]; [constructor |].
  simpl. constructor; [| done]. unfold entryOf. by rewrite He.
Qed.

(** X7: the store after an import does not depend on the order of the rows:
    a file with the same rows in another order gives the same database. *)
Theorem import_permutation (records records' : list Person)
    (d d1 : gmap string (gmap string Z)) :
  records ≡ₚ records' →
  storeRecordsInRedis records (Some d) = Ok d1 →
  storeRecordsInRedis records' (Some d) = Ok d1.
Proof.
  intros Hperm (es & Hes & ->)%storeRecordsInRedis_Ok_inv.
  assert (entries records' (entryOf <$> records')) as Hes'.
  { apply entries_of_Forall, Forall_forall. intros rec Hrec.
    rewrite <- Hperm in Hrec.
    destruct (entries_elem_of_l _ _ _ Hes Hrec) as (e & _ & He). eauto. }
  rewrite (storeRecordsInRedis_entries _ _ _ Hes'). f_equal.
  pose proof (entries_entryOf _ _ Hes) as ->.
  pose proof (fmap_Permutation entryOf _ _ Hperm) as Hp.
  pose proof (entries_functional _ _ Hes) as Hfun.
  pose proof (entries_functional _ _ Hes') as Hfun'.
  pose proof (entries_exact _ _ Hes) as Hex.
  pose proof (entries_exact _ _ Hes') as Hex'.
  destruct records as [| rec records].
  - apply Permutation_nil_l in Hperm as ->. done.
  - destruct records' as [| rec' records'];
      [by apply Permutation_nil_r in Hperm |].
    rewrite fmap_cons in Hex, Hex'.
    rewrite !fmap_cons, !stored_cons, <- !fmap_cons by done. f_equal.
    apply map_eq. intros member. apply option_eq. intros score.
    rewrite (zadd_all_lookup_iff _ member score Hfun),
      (zadd_all_lookup_iff _ member score Hfun').
    by rewrite Hp.
Qed.

Lemma import_permutation_example :
  ∃ d1,
    storeRecordsInRedis
      [mkPerson "A" "2000-01-01" "2000-01-11"; mkPerson "B" "2000-01-01" "2000-01-21"]
      (Some ∅) = Ok d1
    ∧ storeRecordsInRedis
        [mkPerson "B" "2000-01-01" "2000-01-21"; mkPerson "A" "2000-01-01" "2000-01-11"]
        (Some ∅) = Ok d1.
Proof.
  destruct (storeRecordsInRedis
              [mkPerson "A" "2000-01-01" "2000-01-11"; mkPerson "B" "2000-01-01" "2000-01-21"]
              (Some ∅)) as [d1 | |] eqn:H; try (vm_compute in H; discriminate).
  exists d1. split; [done |].
  apply (import_permutation _ _ _ _ ltac:(apply Permutation_swap) H).
Defined.

Lemma sendRecords_first_error (c : redis.Conn) (good : list Person) (bad : Person)
    (rest : list Person) (es : list (string * Z)) (e : fatal) :
  entries good es → getAgeInDays (BirthDate bad) (DeathDate bad) = Fatal e →
  sendRecords c (good ++ bad :: rest) = Fatal e.
Proof.
  intros Hes Hbad. revert c.
  induction Hes as [| rec x good es Hx _ IH]; intros c.
  - cbn [app sendRecords]. by rewrite Hbad.
  - apply entry_inv in Hx as [_ Hage]. cbn [app sendRecords]. rewrite Hage. simpl.
    apply IH.
Qed.

(** X8: an import stops at the first record with a date that does not parse
    and reports that record's error, the birth date before the death date;
    the records after it are not looked at.  When the server cannot be
    reached that is reported first, whatever the records are. *)
Theorem import_first_error (good : list Person) (bad : Person) (rest : list Person)
    (es : list (string * Z)) (d : gmap string (gmap string Z)) :
  entries good es →
  time.parseFields (BirthDate bad) = None ∨ time.parseFields (DeathDate bad) = None →
  storeRecordsInRedis (good ++ bad :: rest) (Some d)
  = Fatal (match time.parseFields (BirthDate bad) with
           | Some _ => UnparseableDeathDate
           | None => UnparseableBirthDate
           end)
  ∧ storeRecordsInRedis (good ++ bad :: rest) None = Fatal RedisFailure.
Proof.
  intros Hes Hbad. split; [| done].
  unfold storeRecordsInRedis. simpl.
  rewrite (sendRecords_first_error _ good bad rest es
             (match time.parseFields (BirthDate bad) with
              | Some _ => UnparseableDeathDate
              | None => UnparseableBirthDate
              end)); [done | done |].
  unfold getAgeInDays, time.Parse.
  destruct (time.parseFields (BirthDate bad)) as [[[y m] dd] |]; [| done].
  destruct Hbad as [? | ->]; done.
Qed.

Lemma import_first_error_example :
  storeRecordsInRedis
    ([mkPerson "A" "2000-01-01" "2000-01-11"]
     ++ mkPerson "B" "2000-02-30" "xx" :: [mkPerson "C" "yy" "2000-01-01"]) (Some ∅)
  = Fatal UnparseableBirthDate
  ∧ storeRecordsInRedis
      ([mkPerson "A" "2000-01-01" "2000-01-11"]
       ++ mkPerson "B" "2000-02-30" "xx" :: [mkPerson "C" "yy" "2000-01-01"]) None
    = Fatal RedisFailure.
Proof.
  apply (import_first_error [mkPerson "A" "2000-01-01" "2000-01-11"]
           (mkPerson "B" "2000-02-30" "xx") [mkPerson "C" "yy" "2000-01-01"]
           [("A,2000-01-01,2000-01-11", 10)] ∅).
  - repeat constructor.
  - by left.
Defined.

(** * Further properties of the query *)

Lemma outcome_bind {A B} (m : io A) (f : A → io B) :
  outcome (m ≫= f)
  = match outcome m with
    | Ok a => outcome (f a)
    | Fatal e => Fatal e
    | Panic => Panic
    end.
Proof. unfold mbind, io_bind. by destruct (outcome m). Qed.

Lemma getAgeInDays_Fatal (d1 d2 : string) (e : fatal) :
  getAgeInDays d1 d2 = Fatal e → e = UnparseableBirthDate ∨ e = UnparseableDeathDate.
Proof.
  unfold getAgeInDays. destruct (time.Parse d1); [| intros [= <-]; by left].
  destruct (time.Parse d2); [done | intros [= <-]; by right].
Qed.

Lemma index_cases {A} (s : list A) (i : nat) :
  (∃ x, index s i = Ok x) ∨ index s i = Panic.
Proof. unfold index. destruct (s !! i); eauto. Qed.

Lemma queryRows_Fatal (userAge : Z) (results : list string) (lastAge : Z) (e : fatal) :
  outcome (queryRows userAge results lastAge) = Fatal e →
  e = UnparseableBirthDate ∨ e = UnparseableDeathDate.
Proof.
  revert lastAge. induction results as [| row results IH]; intros lastAge; [done |].
  cbn [queryRows]. cbn zeta. rewrite !outcome_bind. unfold lift. cbn [outcome].
  destruct (index_cases (Split row ",") 0) as [[name ->] | ->]; [| done].
  rewrite !outcome_bind. cbn [outcome].
  destruct (index_cases (Split row ",") 1) as [[bday ->] | ->]; [| done].
  rewrite !outcome_bind. cbn [outcome].
  destruct (index_cases (Split row ",") 2) as [[dday ->] | ->]; [| done].
  rewrite !outcome_bind. cbn [outcome].
  destruct (getAgeInDays bday dday) as [age | e' |] eqn:Hage; [| | done].
  - rewrite !outcome_bind.
    replace (outcome (if (userAge >=? lastAge) && (userAge <? age)
                      then printUserAge userAge else mret ())) with (Ok ())
      by (by destruct (_ && _)).
    unfold print. cbn [outcome]. apply IH.
  - intros [= <-]. by eapply getAgeInDays_Fatal.
Qed.

(** X9: the errors of a query.  The query date is reported as of an invalid
    format exactly when it contains no run of yyyy-mm-dd digits; a date that
    contains one without being a calendar date of exactly that form (such as
    2000-13-01, or one with further text around it) is reported as an
    unparseable birth date; a server that cannot be reached is reported after
    the dates were read.  Nothing is printed in these cases, and the check of
    the format never turns down a date that parses. *)
Theorem doQuery_errors (dateStr : string) (ndays : Z) (now : string)
    (srv : option (gmap string (gmap string Z))) :
  (outcome (doQuery dateStr ndays now srv) = Fatal InvalidQueryDate
   ↔ dateFmtRegex_MatchString dateStr = false)
  ∧ (dateFmtRegex_MatchString dateStr = true → time.parseFields dateStr = None →
     doQuery dateStr ndays now srv = IO [] (Fatal UnparseableBirthDate))
  ∧ (is_Some (time.parseFields dateStr) → is_Some (time.parseFields now) → srv = None →
     doQuery dateStr ndays now srv = IO [] (Fatal RedisFailure))
  ∧ (is_Some (time.parseFields dateStr) → dateFmtRegex_MatchString dateStr = true)
  ∧ dateFmtRegex_MatchString "x2000-13-01" = true
  ∧ time.parseFields "x2000-13-01" = None ∧ time.parseFields "2000-13-01" = None.
Proof.
  split_and!; [| | | apply parseFields_dateFmt | done | done | done].
  - unfold doQuery.
    destruct (dateFmtRegex_MatchString dateStr); cbn [negb]; [| done].
    split; [| done]. rewrite outcome_bind. unfold lift at 1. cbn [outcome].
    destruct (getAgeInDays dateStr now) as [userAge | e |] eqn:Hage;
      [| by intros [= ->]; destruct (getAgeInDays_Fatal _ _ _ Hage) | done].
    rewrite outcome_bind. unfold lift at 1. cbn [outcome].
    destruct srv as [d |]; [| done]. simpl redis.Dial. cbn zeta.
    unfold printResults. rewrite outcome_bind.
    destruct (outcome (queryRows _ _ _)) as [lastAge | e |] eqn:Hloop.
    + by destruct (userAge >=? lastAge).
    + intros [= ->]. by destruct (queryRows_Fatal _ _ _ _ Hloop).
    + done.
  - intros Hre Hparse. unfold doQuery. rewrite Hre. cbn [negb].
    unfold getAgeInDays, time.Parse. by rewrite Hparse.
  - intros [a Ha] [b Hb] ->. unfold doQuery.
    rewrite parseFields_dateFmt by eauto. cbn [negb].
    rewrite (getAgeInDays_spec _ _ _ _ Ha Hb). by rewrite bind_lift_Ok.
Qed.

(** The names and ages a query reads back after an import are those of the
    records in the window. *)
Lemma query_rows_after_import (records : list Person) (d d1 : gmap string (gmap string Z))
    (min max : Z) :
  storeRecordsInRedis records (Some d) = Ok d1 →
  Forall (λ rec, count_byte "," (Name rec) = 0%nat) records →
  ∃ recs,
    decoded (redis.ZRANGEBYSCORE d1 DB_NAME min max) recs
    ∧ ascending recs
    ∧ ∀ name age,
        (name, age) ∈ recs
        ↔ ∃ rec, rec ∈ records ∧ Name rec = name
                 ∧ getAgeInDays (BirthDate rec) (DeathDate rec) = Ok age
                 ∧ min <= age <= max.
Proof.
  intros (es & Hes & ->)%storeRecordsInRedis_Ok_inv Hnames.
  rewrite Forall_forall in Hnames.
  destruct (ZRANGEBYSCORE_elem (stored es d) min max) as (hits & -> & Hsorted & Hhits).
  assert (∀ x, x ∈ hits ↔ x ∈ es ∧ min <= x.2 <= max) as Hin.
  { intros [member score].
    rewrite Hhits, contents_stored by (by eapply entries_exact).
    rewrite (zadd_all_lookup_iff _ _ _ (entries_functional _ _ Hes)). simpl.
    split; intros [Hx Hwin]; (split; [done |]).
    - apply nearest_bounds; [| done].
      pose proof (entries_exact _ _ Hes) as Hex. unfold exact_scores in Hex.
      rewrite Forall_forall in Hex. apply (Hex _ Hx).
    - apply nearest_bounds in Hwin; [done |].
      pose proof (entries_exact _ _ Hes) as Hex. unfold exact_scores in Hex.
      rewrite Forall_forall in Hex. apply (Hex _ Hx). }
  assert (∀ x, x ∈ es → ∃ rec, rec ∈ records ∧ entry rec = Ok x
                               ∧ rowFields x.1 = Ok (Name rec, x.2)) as Hrow.
  { intros x Hx. destruct (entries_elem_of _ _ _ Hes Hx) as (rec & Hrec & Hentry).
    exists rec. split_and!; [done | done |]. by apply rowFields_entry, Hnames. }
  exists ((λ x, (rowName x.1, x.2)) <$> hits). split_and!.
  - unfold decoded. apply Forall2_fmap, Forall_Forall2_diag, Forall_forall.
    intros x [Hx _]%Hin. destruct (Hrow x Hx) as (rec & _ & _ & Hfields).
    unfold rowName. by rewrite Hfields.
  - unfold ascending. by rewrite <- list_fmap_compose.
  - intros name age. rewrite list_elem_of_fmap. split.
    + intros (x & [= -> ->] & [Hx Hwin]%Hin).
      destruct (Hrow x Hx) as (rec & Hrec & Hentry & Hfields).
      exists rec. unfold rowName. rewrite Hfields.
      destruct (entry_inv _ _ Hentry) as [_ Hage]. done.
    + intros (rec & Hrec & <- & Hage & Hwin).
      destruct (entries_elem_of_l _ _ _ Hes Hrec) as (x & Hx & Hentry).
      destruct (entry_inv _ _ Hentry) as [_ Hage'].
      assert (x.2 = age) as Hx2 by congruence.
      exists x. split.
      * unfold rowName. rewrite (rowFields_entry rec x Hentry (Hnames _ Hrec)).
        by rewrite Hx2.
      * apply Hin. split; [done | lia].
Qed.

Lemma doQuery_Ok (dateStr : string) (ndays : Z) (now : string) (userAge : Z)
    (d : gmap string (gmap string Z)) :
  getAgeInDays dateStr now = Ok userAge →
  doQuery dateStr ndays now (Some d)
  = printResults userAge
      (redis.ZRANGEBYSCORE d DB_NAME (wrap64 (userAge - ndays)) (wrap64 (userAge + ndays))).
Proof.
  intros Hage.
  apply getAgeInDays_Ok_inv in Hage as Hparse. destruct Hparse as (a & b & Ha & _ & _).
  unfold doQuery. rewrite parseFields_dateFmt by eauto. cbn [negb].
  rewrite Hage, bind_lift_Ok. simpl redis.Dial. by rewrite bind_lift_Ok.
Qed.

Lemma elem_of_scan_died (userAge lastAge : Z) (recs : list (string * Z))
    (name : string) (age : Z) :
  Died name age ∈ scan userAge recs lastAge ↔ (name, age) ∈ recs.
Proof.
  revert lastAge. induction recs as [| [n a] recs IH]; intros lastAge.
  - simpl. split; [| by intros ?%elem_of_nil].
    destruct (userAge >=? lastAge); [| by intros ?%elem_of_nil].
    intros [H | H]%elem_of_cons; [done | by apply elem_of_nil in H].
  - cbn [scan]. rewrite elem_of_app, elem_of_cons, IH, elem_of_cons.
    unfold died. simpl. split.
    + intros [H | [[= -> ->] | H]]; [| by left | by right].
      destruct ((userAge >=? lastAge) && (userAge <? a)); [| by apply elem_of_nil in H].
      apply elem_of_cons in H as [H | H]; [done | by apply elem_of_nil in H].
    + intros [[= -> ->] | H]; [right; by left | right; by right].
Qed.

(** ** The marker of a query after an import *)

Lemma decoded_inj (rows : list string) (recs recs' : list (string * Z)) :
  decoded rows recs → decoded rows recs' → recs = recs'.
Proof.
  intros H. revert recs'.
  induction H as [| row r rows recs Hr _ IH]; intros recs' H'; inversion H'; subst.
  - done.
  - f_equal; [congruence | by apply IH].
Qed.

(** C1 (as amended): after an import of records whose names have no comma,
    the rows that a query fetches are read back without an error, each with
    the name and the age at death of an imported record, in ascending order
    of age.  The marker line is printed immediately before the record whose
    age is above the reference age while the age before it (0 at the start)
    is at or below the reference age; and when no fetched record's age is
    above the reference age, the marker is printed once, after all the
    record lines, provided some record was fetched or the reference age is
    not negative. *)
Theorem marker_placement (records : list Person) (d d1 : gmap string (gmap string Z))
    (dateStr now : string) (ndays userAge : Z) :
  storeRecordsInRedis records (Some d) = Ok d1 →
  Forall (λ rec, count_byte "," (Name rec) = 0%nat) records →
  getAgeInDays dateStr now = Ok userAge →
  ∃ recs,
    decoded (redis.ZRANGEBYSCORE d1 DB_NAME
               (wrap64 (userAge - ndays)) (wrap64 (userAge + ndays))) recs
    ∧ ascending recs
    ∧ (∀ name age, (name, age) ∈ recs →
         ∃ rec, rec ∈ records ∧ Name rec = name
                ∧ getAgeInDays (BirthDate rec) (DeathDate rec) = Ok age)
    ∧ (∀ pre r post,
         recs = pre ++ r :: post → lastAgeAfter 0 pre <= userAge → userAge < r.2 →
         doQuery dateStr ndays now (Some d1)
         = IO ((died <$> pre) ++ YouAreHere userAge :: died r :: (died <$> post)) (Ok tt))
    ∧ (Forall (λ r, r.2 <= userAge) recs → recs ≠ [] ∨ 0 <= userAge →
       doQuery dateStr ndays now (Some d1)
       = IO ((died <$> recs) ++ [YouAreHere userAge]) (Ok tt)).
Proof.
  intros Hstore Hnames Hage.
  destruct (query_rows_after_import records d d1
              (wrap64 (userAge - ndays)) (wrap64 (userAge + ndays)) Hstore Hnames)
    as (recs & Hdec & Hasc & Hrecs).
  exists recs. rewrite (doQuery_Ok _ _ _ _ _ Hage).
  destruct (printResults_placement userAge _ recs Hdec Hasc) as [Hmid Hend].
  split_and!; [done | done | | done | done].
  intros name age (rec & Hrec & Hname & Hrecage & _)%Hrecs. eauto.
Qed.

Lemma marker_placement_examples :
  storeRecordsInRedis [rec10; rec20; rec30] (Some ∅)
  = Ok {[ DB_NAME := {[ row10 := 10; row20 := 20; row30 := 30 ]} ]}
  ∧ getAgeInDays "2000-01-01" "2000-01-16" = Ok 15
  ∧ doQuery "2000-01-01" 365 "2000-01-16"
      (Some {[ DB_NAME := {[ row10 := 10; row20 := 20; row30 := 30 ]} ]})
    = IO [Died "A" 10; YouAreHere 15; Died "B" 20; Died "C" 30] (Ok tt)
  ∧ storeRecordsInRedis [rec5; rec10] (Some ∅)
    = Ok {[ DB_NAME := {[ row5 := 5; row10 := 10 ]} ]}
  ∧ getAgeInDays "2000-01-01" "2000-01-21" = Ok 20
  ∧ doQuery "2000-01-01" 365 "2000-01-21"
      (Some {[ DB_NAME := {[ row5 := 5; row10 := 10 ]} ]})
    = IO [Died "E" 5; Died "A" 10; YouAreHere 20] (Ok tt)
  ∧ storeRecordsInRedis [] (Some ∅) = Ok ∅
  ∧ getAgeInDays "2000-01-01" "2000-01-01" = Ok 0
  ∧ doQuery "2000-01-01" 365 "2000-01-01" (Some ∅) = IO [YouAreHere 0] (Ok tt).
Proof.
  assert (storeRecordsInRedis [rec10; rec20; rec30] (Some ∅)
          = Ok {[ DB_NAME := {[ row10 := 10; row20 := 20; row30 := 30 ]} ]}) as Hs3
    by (vm_compute; reflexivity).
  assert (storeRecordsInRedis [rec5; rec10] (Some ∅)
          = Ok {[ DB_NAME := {[ row5 := 5; row10 := 10 ]} ]}) as Hs2
    by (vm_compute; reflexivity).
  assert (storeRecordsInRedis [] (Some ∅) = Ok ∅) as Hs0 by (vm_compute; reflexivity).
  assert (getAgeInDays "2000-01-01" "2000-01-16" = Ok 15) as Ha3
    by (vm_compute; reflexivity).
  assert (getAgeInDays "2000-01-01" "2000-01-21" = Ok 20) as Ha2
    by (vm_compute; reflexivity).
  assert (getAgeInDays "2000-01-01" "2000-01-01" = Ok 0) as Ha0
    by (vm_compute; reflexivity).
  destruct decoded_examples as (Hd3 & Hd2 & _).
  split_and!; [exact Hs3 | exact Ha3 | | exact Hs2 | exact Ha2 | | exact Hs0 | exact Ha0 |].
  - destruct (marker_placement [rec10; rec20; rec30] ∅ _ "2000-01-01" "2000-01-16" 365 15
                Hs3 ltac:(repeat constructor) Ha3)
      as (recs & Hdec & _ & _ & Hmid & _).
    assert (redis.ZRANGEBYSCORE {[ DB_NAME := {[ row10 := 10; row20 := 20; row30 := 30 ]} ]}
              DB_NAME (wrap64 (15 - 365)) (wrap64 (15 + 365)) = [row10; row20; row30])
      as Hrows by (vm_compute; reflexivity).
    rewrite Hrows in Hdec. pose proof (decoded_inj _ _ _ Hdec Hd3) as ->.
    apply (Hmid [("A", 10)] ("B", 20) [("C", 30)]); simpl; (done || lia).
  - destruct (marker_placement [rec5; rec10] ∅ _ "2000-01-01" "2000-01-21" 365 20
                Hs2 ltac:(repeat constructor) Ha2)
      as (recs & Hdec & _ & _ & _ & Hend).
    assert (redis.ZRANGEBYSCORE {[ DB_NAME := {[ row5 := 5; row10 := 10 ]} ]}
              DB_NAME (wrap64 (20 - 365)) (wrap64 (20 + 365)) = [row5; row10])
      as Hrows by (vm_compute; reflexivity).
    rewrite Hrows in Hdec. pose proof (decoded_inj _ _ _ Hdec Hd2) as ->.
    apply Hend; [repeat constructor; simpl; lia | by left].
  - destruct (marker_placement [] ∅ _ "2000-01-01" "2000-01-01" 365 0
                Hs0 ltac:(constructor) Ha0)
      as (recs & Hdec & _ & _ & _ & Hend).
    assert (redis.ZRANGEBYSCORE ∅ DB_NAME (wrap64 (0 - 365)) (wrap64 (0 + 365)) = [])
      as Hrows by (vm_compute; reflexivity).
    rewrite Hrows in Hdec. assert (decoded [] []) as Hd0 by constructor.
    pose proof (decoded_inj _ _ _ Hdec Hd0) as ->.
    apply Hend; [constructor | right; lia].
Defined.

(** C2 (as amended): after an import of records whose names have no comma,
    in a query with a window of at most 2^62 days whose reference age is the
    age at death of an imported record, that record's line is printed
    before the marker line: the marker comes after all the records of that
    age and before the first record of a greater age. *)
Theorem marker_after_tie (records : list Person) (d d1 : gmap string (gmap string Z))
    (dateStr now : string) (ndays userAge : Z) (rec : Person) :
  storeRecordsInRedis records (Some d) = Ok d1 →
  Forall (λ rec, count_byte "," (Name rec) = 0%nat) records →
  getAgeInDays dateStr now = Ok userAge → 0 <= ndays <= 2 ^ 62 →
  rec ∈ records → getAgeInDays (BirthDate rec) (DeathDate rec) = Ok userAge →
  ∃ before ties above : list (string * Z),
    Forall (λ x, x.2 <= userAge) before
    ∧ Forall (λ x, x.2 = userAge) ties
    ∧ Forall (λ x, userAge < x.2) above
    ∧ doQuery dateStr ndays now (Some d1)
      = IO ((died <$> before) ++ Died (Name rec) userAge :: (died <$> ties)
            ++ YouAreHere userAge :: (died <$> above)) (Ok tt).
Proof.
  intros Hstore Hnames Hage Hndays Hrec Hrecage.
  destruct (window_no_wrap userAge ndays (getAgeInDays_bounds _ _ _ Hage) Hndays)
    as [Hlo Hhi].
  rewrite (doQuery_Ok _ _ _ _ _ Hage), Hlo, Hhi.
  destruct (query_rows_after_import records d d1 (userAge - ndays) (userAge + ndays)
              Hstore Hnames) as (recs & Hdec & Hasc & Hrecs).
  assert ((Name rec, userAge) ∈ recs) as Hin.
  { apply Hrecs. exists rec. split_and!; [done | done | done | lia | lia]. }
  apply list_elem_of_split in Hin as (pre & post & ->).
  destruct (printResults_tie userAge _ pre (Name rec, userAge) post
              Hdec Hasc eq_refl) as (ties & above & -> & Hties & Habove & Hout).
  exists pre, ties, above. split_and!; [| done | done | exact Hout].
  eapply ascending_prefix_le; [done | simpl; lia].
Qed.

Lemma marker_after_tie_example :
  ∃ before ties above : list (string * Z),
    Forall (λ x, x.2 <= 10) before
    ∧ Forall (λ x, x.2 = 10) ties
    ∧ Forall (λ x, 10 < x.2) above
    ∧ doQuery "2000-01-01" 365 "2000-01-11"
        (Some {[ DB_NAME := {[ row10 := 10; row20 := 20 ]} ]})
      = IO ((died <$> before) ++ Died "A" 10 :: (died <$> ties)
            ++ YouAreHere 10 :: (died <$> above)) (Ok tt).
Proof.
  apply (marker_after_tie [rec10; rec20] ∅ {[ DB_NAME := {[ row10 := 10; row20 := 20 ]} ]}
           "2000-01-01" "2000-01-11" 365 10 rec10).
  - vm_compute; reflexivity.
  - repeat constructor.
  - vm_compute; reflexivity.
  - lia.
  - apply list_elem_of_here.
  - vm_compute; reflexivity.
Defined.

(** C3 (as amended): after an import of records whose names have no comma,
    a query ends without an error and never prints the marker line twice;
    it prints it exactly once when the reference age is not negative or some
    record line printed has an age at or below it, and not at all
    otherwise. *)
Theorem marker_once (records : list Person) (d d1 : gmap string (gmap string Z))
    (dateStr now : string) (ndays userAge : Z) :
  storeRecordsInRedis records (Some d) = Ok d1 →
  Forall (λ rec, count_byte "," (Name rec) = 0%nat) records →
  getAgeInDays dateStr now = Ok userAge →
  outcome (doQuery dateStr ndays now (Some d1)) = Ok tt
  ∧ (count_markers (stdout (doQuery dateStr ndays now (Some d1))) <= 1)%nat
  ∧ (count_markers (stdout (doQuery dateStr ndays now (Some d1))) = 1%nat
     ↔ 0 <= userAge
       ∨ ∃ name age, Died name age ∈ stdout (doQuery dateStr ndays now (Some d1))
                     ∧ age <= userAge).
Proof.
  intros Hstore Hnames Hage. rewrite (doQuery_Ok _ _ _ _ _ Hage).
  destruct (query_rows_after_import records d d1
              (wrap64 (userAge - ndays)) (wrap64 (userAge + ndays)) Hstore Hnames)
    as (recs & Hdec & Hasc & _).
  rewrite (printResults_decoded _ _ _ Hdec). cbn [outcome stdout].
  destruct (count_markers_scan userAge recs Hasc) as [Hle Hone].
  split_and!; [done | done |]. rewrite Hone, Exists_exists.
  split; (intros [Hpos | Hex]; [by left | right]).
  - destruct Hex as ([name age] & Hin & Hle'). exists name, age.
    by rewrite elem_of_scan_died.
  - destruct Hex as (name & age & Hin & Hle'). exists (name, age).
    by rewrite elem_of_scan_died in Hin.
Qed.

Lemma marker_once_example :
  outcome (doQuery "2000-01-01" 365%Z "2000-01-16"
             (Some {[ DB_NAME := {[ row10 := 10%Z; row20 := 20%Z; row30 := 30%Z ]} ]})) = Ok tt
  ∧ (count_markers
       (stdout (doQuery "2000-01-01" 365%Z "2000-01-16"
                  (Some {[ DB_NAME := {[ row10 := 10%Z; row20 := 20%Z; row30 := 30%Z ]} ]})))
     <= 1)%nat
  ∧ (count_markers
       (stdout (doQuery "2000-01-01" 365%Z "2000-01-16"
                  (Some {[ DB_NAME := {[ row10 := 10%Z; row20 := 20%Z; row30 := 30%Z ]} ]})))
     = 1%nat
     ↔ 0 <= 15
       ∨ ∃ name age,
           Died name age
           ∈ stdout (doQuery "2000-01-01" 365%Z "2000-01-16"
                       (Some {[ DB_NAME := {[ row10 := 10%Z; row20 := 20%Z; row30 := 30%Z ]} ]}))
           ∧ age <= 15).
Proof.
  apply (marker_once [rec10; rec20; rec30] ∅
           {[ DB_NAME := {[ row10 := 10%Z; row20 := 20%Z; row30 := 30%Z ]} ]}
           "2000-01-01" "2000-01-16" 365 15).
  - vm_compute; reflexivity.
  - repeat constructor.
  - vm_compute; reflexivity.
Defined.

(** Why the names must have no comma.  A name that ends in a comma and a
    date is read back with another age than the score it was stored under:
    after the import of a record of 5000 days and of one of 24465 days named
    "Brown,1933-05-03", the rows come back in the order of their scores, the
    second is read as 2434 days, and a query with the reference age 3000
    prints the marker twice; after the import of a record of 1 day named
    "X,1900-01-01", read back as 36524 days, the marker is printed before
    the record both for the reference age 5, above its score, and for the
    reference age 1, equal to its score. *)
Lemma marker_with_comma_names :
  storeRecordsInRedis
    [mkPerson "P" "2000-01-01" "2013-09-09";
     mkPerson "Brown,1933-05-03" "1940-01-01" "2006-12-25"] (Some ∅)
  = Ok {[ DB_NAME := {[ "P,2000-01-01,2013-09-09" := 5000;
                        "Brown,1933-05-03,1940-01-01,2006-12-25" := 24465 ]} ]}
  ∧ doQuery "2000-01-01" 30000 "2008-03-19"
      (Some {[ DB_NAME := {[ "P,2000-01-01,2013-09-09" := 5000;
                             "Brown,1933-05-03,1940-01-01,2006-12-25" := 24465 ]} ]})
    = IO [YouAreHere 3000; Died "P" 5000; Died "Brown" 2434; YouAreHere 3000] (Ok tt)
  ∧ storeRecordsInRedis [mkPerson "X,1900-01-01" "2000-01-01" "2000-01-02"] (Some ∅)
    = Ok {[ DB_NAME := {[ "X,1900-01-01,2000-01-01,2000-01-02" := 1 ]} ]}
  ∧ doQuery "2000-01-01" 365 "2000-01-06"
      (Some {[ DB_NAME := {[ "X,1900-01-01,2000-01-01,2000-01-02" := 1 ]} ]})
    = IO [YouAreHere 5; Died "X" 36524] (Ok tt)
  ∧ doQuery "2000-01-01" 365 "2000-01-02"
      (Some {[ DB_NAME := {[ "X,1900-01-01,2000-01-01,2000-01-02" := 1 ]} ]})
    = IO [YouAreHere 1; Died "X" 36524] (Ok tt).
Proof. split_and!; vm_compute; reflexivity. Qed.

(** X10: what a query prints after an import.  For records whose names have
    no comma and a window of at most 2^62 days, the record lines printed are
    exactly those of the records whose age at death lies within the window
    around the reference age, each with its name and that age. *)
Theorem doQuery_window (records : list Person) (d d1 : gmap string (gmap string Z))
    (dateStr now : string) (ndays userAge : Z) :
  storeRecordsInRedis records (Some d) = Ok d1 →
  Forall (λ rec, count_byte "," (Name rec) = 0%nat) records →
  getAgeInDays dateStr now = Ok userAge → 0 <= ndays <= 2 ^ 62 →
  outcome (doQuery dateStr ndays now (Some d1)) = Ok tt
  ∧ ∀ name age,
      Died name age ∈ stdout (doQuery dateStr ndays now (Some d1))
      ↔ ∃ rec, rec ∈ records ∧ Name rec = name
               ∧ getAgeInDays (BirthDate rec) (DeathDate rec) = Ok age
               ∧ userAge - ndays <= age <= userAge + ndays.
Proof.
  intros Hstore Hnames Hage Hndays.
  destruct (window_no_wrap userAge ndays (getAgeInDays_bounds _ _ _ Hage) Hndays)
    as [Hlo Hhi].
  rewrite (doQuery_Ok _ _ _ _ _ Hage), Hlo, Hhi.
  destruct (query_rows_after_import records d d1 (userAge - ndays) (userAge + ndays)
              Hstore Hnames) as (recs & Hdec & _ & Hrecs).
  rewrite (printResults_decoded _ _ _ Hdec). cbn [outcome stdout].
  split; [done |]. intros name age. by rewrite elem_of_scan_died.
Qed.

Lemma doQuery_window_example :
  outcome (doQuery "2000-01-01" 365 "2000-01-16"
             (Some {[ DB_NAME := {[ "A,2000-01-01,2000-01-11" := 10 ]} ]})) = Ok tt
  ∧ ∀ name age,
      Died name age
      ∈ stdout (doQuery "2000-01-01" 365 "2000-01-16"
                  (Some {[ DB_NAME := {[ "A,2000-01-01,2000-01-11" := 10 ]} ]}))
      ↔ ∃ rec, rec ∈ [mkPerson "A" "2000-01-01" "2000-01-11"] ∧ Name rec = name
               ∧ getAgeInDays (BirthDate rec) (DeathDate rec) = Ok age
               ∧ 15 - 365 <= age <= 15 + 365.
Proof.
  apply (doQuery_window [mkPerson "A" "2000-01-01" "2000-01-11"] ∅).
  - vm_compute. reflexivity.
  - repeat constructor.
  - vm_compute. reflexivity.
  - lia.
Defined.

Lemma omap_lineAge_died (recs : list (string * Z)) :
  omap lineAge (died <$> recs) = recs.*2.
Proof.
  induction recs as [| r recs IH]; [done |]. rewrite !fmap_cons.
  change (omap lineAge (died r :: (died <$> recs)))
    with (r.2 :: omap lineAge (died <$> recs)).
  by rewrite IH.
Qed.

Lemma scan_lineAge_sorted (userAge : Z) (recs : list (string * Z)) :
  ascending recs → Sorted Z.le (omap lineAge (scan userAge recs 0)).
Proof.
  intros Hasc.
  destruct (scan_ascending userAge 0 recs Hasc) as (pre & post & -> & Hpre & Hpost & ->).
  destruct (ascending_app_inv _ _ Hasc) as (Hsp & Hso & Hcross).
  rewrite !omap_app, !omap_lineAge_died.
  apply StronglySorted_Sorted, StronglySorted_app_2.
  - intros x y (rx & -> & Hx)%list_elem_of_fmap Hy.
    rewrite Forall_forall in Hpre. specialize (Hpre rx Hx).
    apply elem_of_app in Hy as [Hy | (ry & -> & Hy)%list_elem_of_fmap].
    + destruct (userAge >=? lastAgeAfter 0 pre); [| by apply elem_of_nil in Hy].
      apply elem_of_cons in Hy as [-> | Hy]; [done | by apply elem_of_nil in Hy].
    + by apply Hcross.
  - by apply (Sorted_StronglySorted _).
  - apply StronglySorted_app_2.
    + intros x y Hx (ry & -> & Hy)%list_elem_of_fmap.
      rewrite Forall_forall in Hpost. specialize (Hpost ry Hy).
      destruct (userAge >=? lastAgeAfter 0 pre); [| by apply elem_of_nil in Hx].
      apply elem_of_cons in Hx as [-> | Hx]; [lia | by apply elem_of_nil in Hx].
    + destruct (userAge >=? lastAgeAfter 0 pre); simpl; repeat constructor.
    + by apply (Sorted_StronglySorted _).
Qed.

(** X11: the lines of a query are in ascending order of age.  After an
    import of records whose names have no comma, the ages of the lines
    printed, the reference age of the marker line among them, never go
    down from one line to the next. *)
Theorem doQuery_ascending (records : list Person) (d d1 : gmap string (gmap string Z))
    (dateStr now : string) (ndays userAge : Z) :
  storeRecordsInRedis records (Some d) = Ok d1 →
  Forall (λ rec, count_byte "," (Name rec) = 0%nat) records →
  getAgeInDays dateStr now = Ok userAge →
  Sorted Z.le (omap lineAge (stdout (doQuery dateStr ndays now (Some d1)))).
Proof.
  intros Hstore Hnames Hage. rewrite (doQuery_Ok _ _ _ _ _ Hage).
  destruct (query_after_import records d d1
              (wrap64 (userAge - ndays)) (wrap64 (userAge + ndays)) Hstore Hnames)
    as (recs & Hdec & Hasc).
  rewrite (printResults_decoded _ _ _ Hdec). cbn [stdout].
  by apply scan_lineAge_sorted.
Qed.

Lemma doQuery_ascending_example :
  Sorted Z.le
    (omap lineAge
       (stdout (doQuery "2000-01-01" 365 "2000-01-16"
                  (Some {[ DB_NAME := {[ "A,2000-01-01,2000-01-11" := 10;
                                         "B,2000-01-01,2000-01-21" := 20 ]} ]})))).
Proof.
  apply (doQuery_ascending
           [mkPerson "A" "2000-01-01" "2000-01-11"; mkPerson "B" "2000-01-01" "2000-01-21"]
           ∅ _ "2000-01-01" "2000-01-16" 365 15).
  - vm_compute. reflexivity.
  - repeat constructor.
  - vm_compute. reflexivity.
Defined.

Lemma filter_none {A} (P : A → Prop) `{∀ x, Decision (P x)} (l : list A) :
  Forall (λ x, ¬ P x) l → filter P l = [].
Proof.
  intros Hno. induction Hno as [| x l Hx _ IH]; [done |].
  by rewrite filter_cons, decide_False.
Qed.

(** No exact score is within bounds that are both beyond 2^53 on the same
    side. *)
Lemma ZRANGEBYSCORE_out_of_reach (d : gmap string (gmap string Z)) (min max : Z) :
  map_Forall (λ _ score, exact_score score) (contents d) →
  max <= - 2 ^ 53 ∨ 2 ^ 53 <= min →
  redis.ZRANGEBYSCORE d DB_NAME min max = [].
Proof.
  intros Hex Hfar. unfold redis.ZRANGEBYSCORE. fold (contents d). cbn zeta.
  rewrite filter_none; [done |].
  apply Forall_forall. intros [member score] Hin. simpl.
  apply elem_of_map_to_list in Hin. specialize (Hex _ _ Hin). simpl in Hex.
  unfold exact_score in Hex.
  destruct Hfar as [Hmax | Hmin].
  - pose proof (nearest_large_neg max Hmax). lia.
  - pose proof (nearest_large min Hmin). lia.
Qed.

(** X12: a window that leaves the 64-bit integers fetches nothing from a
    store whose scores are below 2^53 in magnitude, as all the scores that
    an import writes are.  When the reference age plus the window is 2^63 or
    more, the upper bound wraps around to the far negative numbers and the
    query prints the marker line alone; when the reference age minus the
    window is below -2^63, the lower bound wraps around to the far positive
    numbers and the query prints nothing at all. *)
Theorem doQuery_window_overflow (d : gmap string (gmap string Z)) (dateStr now : string)
    (ndays userAge : Z) :
  map_Forall (λ _ score, exact_score score) (contents d) →
  getAgeInDays dateStr now = Ok userAge → 0 <= ndays < 2 ^ 63 →
  (2 ^ 63 <= userAge + ndays →
   doQuery dateStr ndays now (Some d) = IO [YouAreHere userAge] (Ok tt))
  ∧ (userAge - ndays < - 2 ^ 63 →
     doQuery dateStr ndays now (Some d) = IO [] (Ok tt)).
Proof.
  intros Hex Hage Hndays. rewrite (doQuery_Ok _ _ _ _ _ Hage).
  pose proof (getAgeInDays_bounds _ _ _ Hage) as Hu. unfold maxDays in Hu.
  change (2 ^ 63) with 9223372036854775808 in *.
  split; intros Hover.
  - rewrite ZRANGEBYSCORE_out_of_reach; [| done |].
    + unfold printResults. cbn [queryRows]. rewrite bind_mret.
      by replace (userAge >=? 0) with true by lia.
    + left. unfold wrap64. change (2 ^ 63) with 9223372036854775808.
      change (2 ^ 64) with 18446744073709551616.
      change (2 ^ 53) with 9007199254740992.
      replace (userAge + ndays + 9223372036854775808)
        with (userAge + ndays - 9223372036854775808 + 1 * 18446744073709551616) by lia.
      rewrite Z_mod_plus_full, Z.mod_small by lia. lia.
  - rewrite ZRANGEBYSCORE_out_of_reach; [| done |].
    + unfold printResults. cbn [queryRows]. rewrite bind_mret.
      by replace (userAge >=? 0) with false by lia.
    + right. unfold wrap64. change (2 ^ 63) with 9223372036854775808.
      change (2 ^ 64) with 18446744073709551616.
      change (2 ^ 53) with 9007199254740992.
      replace (userAge - ndays + 9223372036854775808)
        with (userAge - ndays + 27670116110564327424 + (-1) * 18446744073709551616) by lia.
      rewrite Z_mod_plus_full, Z.mod_small by lia. lia.
Qed.

Lemma doQuery_window_overflow_example :
  (2 ^ 63 <= 1 + 9223372036854775807 →
   doQuery "2000-01-01" 9223372036854775807 "2000-01-02"
     (Some {[ DB_NAME := {[ "A,2000-01-01,2000-01-02" := 1 ]} ]})
   = IO [YouAreHere 1] (Ok tt))
  ∧ (1 - 9223372036854775807 < - 2 ^ 63 →
     doQuery "2000-01-01" 9223372036854775807 "2000-01-02"
       (Some {[ DB_NAME := {[ "A,2000-01-01,2000-01-02" := 1 ]} ]})
     = IO [] (Ok tt)).
Proof.
  apply (doQuery_window_overflow _ "2000-01-01" "2000-01-02" 9223372036854775807 1).
  - unfold contents. rewrite lookup_singleton_eq. simpl.
    apply map_Forall_singleton. unfold exact_score.
    change (2 ^ 53) with 9007199254740992. lia.
  - vm_compute. reflexivity.
  - change (2 ^ 63) with 9223372036854775808. lia.
Defined.

Lemma queryRows_bad_row (userAge : Z) (bad : string) (rest : list string) (lastAge : Z) :
  (∀ e, rowFields bad = Fatal e →
        queryRows userAge (bad :: rest) lastAge = IO [] (Fatal e))
  ∧ (rowFields bad = Panic → queryRows userAge (bad :: rest) lastAge = IO [] Panic).
Proof.
  unfold rowFields. cbn [queryRows]. cbn zeta.
  destruct (index_cases (Split bad ",") 0) as [[name ->] | ->]; [| by split].
  rewrite bind_lift_Ok. cbn beta.
  destruct (index_cases (Split bad ",") 1) as [[bday ->] | ->]; [| by split].
  rewrite bind_lift_Ok. cbn beta.
  destruct (index_cases (Split bad ",") 2) as [[dday ->] | ->]; [| by split].
  rewrite bind_lift_Ok. cbn beta. simpl.
  destruct (getAgeInDays bday dday) as [age | e |]; simpl; split; try done.
  by intros ? [= <-].
Qed.

Lemma queryRows_stops (userAge : Z) (pre : list string) (bad : string)
    (rest : list string) (recs : list (string * Z)) (lastAge : Z) (r : result Z) :
  decoded pre recs →
  queryRows userAge (bad :: rest) (lastAgeAfter lastAge recs) = IO [] r →
  (∀ x, r ≠ Ok x) →
  queryRows userAge (pre ++ bad :: rest) lastAge = IO (loopLines userAge recs lastAge) r.
Proof.
  intros Hdec Hbad Hr. revert lastAge Hbad.
  induction Hdec as [| row [name age] pre recs Hrow _ IH]; intros lastAge Hbad; [done |].
  specialize (IH age Hbad). unfold rowFields in Hrow. cbn zeta in Hrow.
  cbn [app queryRows loopLines]. cbn zeta.
  destruct (index (Split row ",") 0) as [name' | |]; try discriminate.
  destruct (index (Split row ",") 1) as [bday | |]; try discriminate.
  destruct (index (Split row ",") 2) as [dday | |]; try discriminate.
  simpl in Hrow. do 3 (rewrite bind_lift_Ok; cbn beta).
  destruct (getAgeInDays bday dday) as [age' | |]; try discriminate.
  simpl in Hrow. injection Hrow as -> ->. rewrite bind_lift_Ok. cbn beta.
  change ((name, age).2) with age. rewrite IH.
  destruct r as [x | e |]; [by destruct (Hr x) | |];
    destruct ((userAge >=? lastAge) && (userAge <? age)); reflexivity.
Qed.

(** X13: a row that cannot be read stops the query where it stands.  The
    rows before it were printed, with the marker if its place came before,
    the rows after it are not printed, no marker is added at the end, and
    the outcome is the error of that row: a fatal error for a date that does
    not parse, a panic for a row with fewer than two commas. *)
Theorem printResults_stops (userAge : Z) (pre : list string) (bad : string)
    (rest : list string) (recs : list (string * Z)) :
  decoded pre recs →
  (∀ e, rowFields bad = Fatal e →
        printResults userAge (pre ++ bad :: rest)
        = IO (loopLines userAge recs 0) (Fatal e))
  ∧ (rowFields bad = Panic →
     printResults userAge (pre ++ bad :: rest) = IO (loopLines userAge recs 0) Panic)
  ∧ ((count_byte "," bad < 2)%nat → rowFields bad = Panic).
Proof.
  intros Hdec.
  destruct (queryRows_bad_row userAge bad rest (lastAgeAfter 0 recs)) as [Hfatal Hpanic].
  split_and!.
  - intros e He. unfold printResults.
    by rewrite (queryRows_stops _ _ _ _ _ _ (Fatal e) Hdec (Hfatal e He)).
  - intros Hp. unfold printResults.
    by rewrite (queryRows_stops _ _ _ _ _ _ Panic Hdec (Hpanic Hp)).
  - intros Hcommas. unfold rowFields. cbn zeta.
    pose proof (Split_length bad ",") as Hlen. unfold index.
    destruct (Split bad ",") as [| f0 [| f1 [| f2 fields]]]; simpl in *; try done. lia.
Qed.

Lemma printResults_stops_example :
  (∀ e, rowFields "B,2000-02-30,2000-03-01" = Fatal e →
        printResults 15 ([row10] ++ "B,2000-02-30,2000-03-01" :: [row30])
        = IO (loopLines 15 [("A", 10)] 0) (Fatal e))
  ∧ (rowFields "B,2000-02-30,2000-03-01" = Panic →
     printResults 15 ([row10] ++ "B,2000-02-30,2000-03-01" :: [row30])
     = IO (loopLines 15 [("A", 10)] 0) Panic)
  ∧ ((count_byte "," "B,2000-02-30,2000-03-01" < 2)%nat
     → rowFields "B,2000-02-30,2000-03-01" = Panic).
Proof.
  apply (printResults_stops 15 [row10] "B,2000-02-30,2000-03-01" [row30] [("A", 10)]).
  repeat constructor.
Defined.

(** X21: the marker of a query after an import.  For records whose names
    have no comma and a window of at most 2^62 days, the query prints the
    marker line at most once, and exactly once when the reference age is not
    negative or some imported record has an age at death from the reference
    age minus the window up to the reference age; otherwise (a query date
    after the current date and no such record) it prints no marker. *)
Theorem doQuery_marker (records : list Person) (d d1 : gmap string (gmap string Z))
    (dateStr now : string) (ndays userAge : Z) :
  storeRecordsInRedis records (Some d) = Ok d1 →
  Forall (λ rec, count_byte "," (Name rec) = 0%nat) records →
  getAgeInDays dateStr now = Ok userAge → 0 <= ndays <= 2 ^ 62 →
  (count_markers (stdout (doQuery dateStr ndays now (Some d1))) <= 1)%nat
  ∧ (count_markers (stdout (doQuery dateStr ndays now (Some d1))) = 1%nat
     ↔ 0 <= userAge
       ∨ ∃ rec age, rec ∈ records
                    ∧ getAgeInDays (BirthDate rec) (DeathDate rec) = Ok age
                    ∧ userAge - ndays <= age <= userAge).
Proof.
  intros Hstore Hnames Hage Hndays.
  destruct (window_no_wrap userAge ndays (getAgeInDays_bounds _ _ _ Hage) Hndays)
    as [Hlo Hhi].
  rewrite (doQuery_Ok _ _ _ _ _ Hage), Hlo, Hhi.
  destruct (query_rows_after_import records d d1 (userAge - ndays) (userAge + ndays)
              Hstore Hnames) as (recs & Hdec & Hasc & Hrecs).
  rewrite (printResults_decoded _ _ _ Hdec). cbn [stdout].
  destruct (count_markers_scan userAge recs Hasc) as [Hle Hone].
  split; [done |]. rewrite Hone, Exists_exists.
  split; (intros [Hpos | Hex]; [by left | right]).
  - destruct Hex as ([name age] & Hin & Hage'). simpl in Hage'.
    apply Hrecs in Hin as (rec & Hrec & _ & Hrecage & Hwin).
    exists rec, age. split_and!; [done | done | lia | done].
  - destruct Hex as (rec & age & Hrec & Hrecage & Hwin).
    exists (Name rec, age). split; [| simpl; lia].
    apply Hrecs. exists rec. split_and!; [done | done | done | lia | lia].
Qed.

Lemma doQuery_marker_example :
  (count_markers (stdout (doQuery "2000-01-03" 5%Z "2000-01-01"
     (Some {[ DB_NAME := {[ "A,2000-01-01,2000-01-02" := 1%Z ]} ]}))) <= 1)%nat
  ∧ (count_markers (stdout (doQuery "2000-01-03" 5 "2000-01-01"
       (Some {[ DB_NAME := {[ "A,2000-01-01,2000-01-02" := 1 ]} ]}))) = 1%nat
     ↔ 0 <= - 2
       ∨ ∃ rec age, rec ∈ [recordA]
                    ∧ getAgeInDays (BirthDate rec) (DeathDate rec) = Ok age
                    ∧ - 2 - 5 <= age <= - 2).
Proof.
  apply (doQuery_marker [recordA] ∅
           {[ DB_NAME := {[ "A,2000-01-01,2000-01-02" := 1 ]} ]}
           "2000-01-03" "2000-01-01" 5 (- 2)).
  - vm_compute; reflexivity.
  - by repeat constructor.
  - vm_compute; reflexivity.
  - lia.
Defined.

(** * Further properties of the texts *)

Lemma fmt_3d_checked :
  forall_range 1000 0 (λ z, (String.length (fmt_3d z) =? 3)%nat) = true.
Proof. vm_compute. reflexivity. Qed.

Lemma fmt_3d_length (z : Z) : 0 <= z <= 999 → String.length (fmt_3d z) = 3%nat.
Proof.
  intros Hz. apply Nat.eqb_eq.
  apply (forall_range_spec _ _ _ fmt_3d_checked). lia.
Qed.

Lemma age_ranges (days : Z) :
  0 <= days <= maxDays →
  0 <= ageInYears days <= 292
  ∧ 0 <= ageInDays days <= 365
  ∧ 1461 * ageInYears days + 4 * ageInDays days <= 4 * days
      < 1461 * ageInYears days + 4 * ageInDays days + 4.
Proof.
  intros Hd. destruct (age_exact days Hd) as [Hy Hr].
  rewrite floorYears_Z in Hy. rewrite truncRemainder_Z in Hr.
  unfold maxDays in Hd. rewrite Hy, Hr.
  pose proof (Z.div_mod (4 * days) 1461 ltac:(lia)) as Hq.
  pose proof (Z.mod_pos_bound (4 * days) 1461 ltac:(lia)) as Hqb.
  pose proof (Z.div_mod ((4 * days) mod 1461) 4 ltac:(lia)) as Hs.
  pose proof (Z.mod_pos_bound ((4 * days) mod 1461) 4 ltac:(lia)) as Hsb.
  generalize dependent (((4 * days) mod 1461) mod 4).
  generalize dependent (((4 * days) mod 1461) / 4).
  generalize dependent ((4 * days) mod 1461).
  generalize dependent ((4 * days) / 1461).
  intros. lia.
Qed.

Lemma formatAge_length (days : Z) :
  0 <= days <= maxDays → String.length (formatAgeInYearsAndDays days) = 22%nat.
Proof.
  intros Hd. destruct (age_ranges days Hd) as (Hyears & Hdays & _).
  unfold formatAgeInYearsAndDays.
  rewrite !length_append, !fmt_3d_length by lia. reflexivity.
Qed.

(** X14: the text of an age.  For every day count from 0 to 106751 the years
    printed are between 0 and 292 and the days printed between 0 and 365,
    the two add up to the day count with less than a day left over
    (1461 * years + 4 * days <= 4 * count < 1461 * years + 4 * days + 4), and
    the text has exactly 22 bytes. *)
Theorem formatAge_width (days : Z) :
  0 <= days <= maxDays →
  0 <= ageInYears days <= 292
  ∧ 0 <= ageInDays days <= 365
  ∧ 1461 * ageInYears days + 4 * ageInDays days <= 4 * days
      < 1461 * ageInYears days + 4 * ageInDays days + 4
  ∧ String.length (formatAgeInYearsAndDays days) = 22%nat.
Proof.
  intros Hd. destruct (age_ranges days Hd) as (Hyears & Hdays & Hsum).
  split_and!; try lia. by apply formatAge_length.
Qed.

Lemma formatAge_width_example :
  0 <= ageInYears 9800 <= 292
  ∧ 0 <= ageInDays 9800 <= 365
  ∧ 1461 * ageInYears 9800 + 4 * ageInDays 9800 <= 4 * 9800
      < 1461 * ageInYears 9800 + 4 * ageInDays 9800 + 4
  ∧ String.length (formatAgeInYearsAndDays 9800) = 22%nat.
Proof. apply (formatAge_width 9800). unfold maxDays. lia. Defined.

Lemma age_negative_checked :
  forall_range 106751 (- 106751)
    (λ d, (ageInYears d =? - ((4 * - d) / 1461))
          && (ageInDays d =? - (((4 * - d) mod 1461) / 4)))
  = true.
Proof. vm_compute. reflexivity. Qed.

(** X20: the text of a negative age (a query for a date after the current
    date).  From -106751 to -1 days the years and the days printed are those
    of the same count of days without its sign, each with a minus sign when
    it is not 0: the division is cut off towards 0 and the remainder has the
    sign of the count, so the years are one more than the floor of
    days / 365.25 unless the count is a multiple of 1461 days. *)
Theorem formatAge_negative (days : Z) :
  - maxDays <= days < 0 →
  ageInYears days = - floorYears (- days)
  ∧ ageInDays days = - truncRemainder (- days)
  ∧ - 292 <= ageInYears days <= 0 ∧ - 365 <= ageInDays days <= 0
  ∧ (days mod 1461 ≠ 0 → floorYears days = ageInYears days - 1).
Proof.
  intros Hd. unfold maxDays in Hd.
  assert (H := forall_range_spec _ _ _ age_negative_checked days).
  cbv beta in H. apply andb_prop in H as [Hy Hr]; [| lia].
  apply Z.eqb_eq in Hy, Hr.
  rewrite !floorYears_Z, truncRemainder_Z, Hy, Hr.
  pose proof (Z.div_mod (4 * - days) 1461 ltac:(lia)) as Hq.
  pose proof (Z.mod_pos_bound (4 * - days) 1461 ltac:(lia)) as Hqb.
  pose proof (Z.div_mod ((4 * - days) mod 1461) 4 ltac:(lia)) as Hs.
  pose proof (Z.mod_pos_bound ((4 * - days) mod 1461) 4 ltac:(lia)) as Hsb.
  pose proof (Z.div_mod (4 * days) 1461 ltac:(lia)) as Hn.
  pose proof (Z.mod_pos_bound (4 * days) 1461 ltac:(lia)) as Hnb.
  pose proof (Z.div_mod days 1461 ltac:(lia)) as Hd1.
  pose proof (Z.mod_pos_bound days 1461 ltac:(lia)) as Hd2.
  generalize dependent (days mod 1461). generalize dependent (days / 1461).
  generalize dependent (((4 * - days) mod 1461) mod 4).
  generalize dependent (((4 * - days) mod 1461) / 4).
  generalize dependent ((4 * - days) mod 1461).
  generalize dependent ((4 * - days) / 1461).
  generalize dependent ((4 * days) mod 1461).
  generalize dependent ((4 * days) / 1461).
  intros. lia.
Qed.

Lemma formatAge_negative_example :
  ageInYears (- 400) = - floorYears (- - 400)
  ∧ ageInDays (- 400) = - truncRemainder (- - 400)
  ∧ - 292 <= ageInYears (- 400) <= 0 ∧ - 365 <= ageInDays (- 400) <= 0
  ∧ (- 400 mod 1461 ≠ 0 → floorYears (- 400) = ageInYears (- 400) - 1).
Proof. apply (formatAge_negative (- 400)). unfold maxDays. lia. Defined.

Lemma spaces_length (n : nat) : String.length (spaces n) = n.
Proof. induction n as [| n IH]; [done |]. simpl. by rewrite IH. Qed.

Lemma rune_size_ascii (c : ascii) (rest : string) :
  (byte c <? 128) = true → rune_size c rest = 1%nat.
Proof.
  intros Hc. unfold rune_size. cbn zeta. rewrite Hc.
  match goal with |- context [match ?p with (_, _) => _ end] => by destruct p end.
Qed.

Lemma RuneCountInString_ascii (s : string) :
  is_ascii s = true → RuneCountInString s = String.length s.
Proof.
  unfold RuneCountInString. induction s as [| c rest IH]; [done |].
  cbn [is_ascii]. intros [Hc Hrest]%andb_prop.
  cbn [rune_count_from String.length]. rewrite (rune_size_ascii _ _ Hc).
  change (1 - 1)%nat with 0%nat. by rewrite IH.
Qed.

(** X15: the width of the printed lines.  For a name of bytes below 128 and
    an age from 0 to 106751, the line of a record has 36 bytes more than the
    name padded to 30: 66 bytes for every name of at most 30 bytes, as the
    marker line has, so that the ages stand in one column; a longer name is
    printed in full and shifts its line. *)
Theorem render_width (name : string) (age : Z) :
  is_ascii name = true → 0 <= age <= maxDays →
  String.length (render (Died name age)) = (Nat.max 30 (String.length name) + 36)%nat
  ∧ String.length (render (YouAreHere age)) = 66%nat.
Proof.
  intros Hname Hage.
  pose proof (formatAge_length age Hage) as Hfmt.
  unfold render, fmt_30s.
  rewrite !length_append, spaces_length, Hfmt, (RuneCountInString_ascii _ Hname).
  split; [| reflexivity].
  change (String.length " (died aged ") with 12%nat.
  change (String.length ")") with 1%nat. change (String.length newline) with 1%nat.
  lia.
Qed.

Lemma render_width_example :
  String.length (render (Died "Frank Zappa" 19342))
  = (Nat.max 30 (String.length "Frank Zappa") + 36)%nat
  ∧ String.length (render (YouAreHere 19342)) = 66%nat.
Proof.
  apply (render_width "Frank Zappa" 19342); [reflexivity | unfold maxDays; lia].
Defined.

Lemma append_assoc (a b c : string) : (a +:+ b) +:+ c = a +:+ (b +:+ c).
Proof.
  induction a as [| x a IH]; [done |].
  change (String x ((a +:+ b) +:+ c) = String x (a +:+ (b +:+ c))). by rewrite IH.
Qed.

(** X16: a comma in a name can go unnoticed.  When the name of a record is a
    text without a comma, a comma and a calendar date, its serialized form
    splits into four fields and the query reads the row without an error:
    it prints the text before the comma as the name, with the day count
    from the date in the name to the record's birth date as the age. *)
Theorem comma_name_misread (n b0 : string) (rec : Person) (a b : Z * Z * Z)
    (userAge : Z) :
  Name rec = n +:+ "," +:+ b0 → count_byte "," n = 0%nat →
  time.parseFields b0 = Some a → time.parseFields (BirthDate rec) = Some b →
  count_byte "," (DeathDate rec) = 0%nat →
  Split (Person_String rec) "," = [n; b0; BirthDate rec; DeathDate rec]
  ∧ printResults userAge [Person_String rec]
    = IO (scan userAge [(n, clampDays (dayNumber b - dayNumber a))] 0) (Ok tt).
Proof.
  intros Hname Hn Ha Hb Hd.
  assert (Split (Person_String rec) "," = [n; b0; BirthDate rec; DeathDate rec])
    as Hsplit.
  { unfold Person_String. rewrite Hname, !append_assoc.
    change (Split (n +:+ String "," (b0 +:+ String ","
              (BirthDate rec +:+ String "," (DeathDate rec)))) ","
            = [n; b0; BirthDate rec; DeathDate rec]).
    rewrite Split_app by done.
    rewrite Split_app by (apply date_no_comma; eauto).
    rewrite Split_app by (apply date_no_comma; eauto).
    by rewrite Split_no_sep. }
  split; [done |].
  apply printResults_decoded. repeat constructor.
  unfold rowFields. cbn zeta. rewrite Hsplit. simpl.
  by rewrite (getAgeInDays_spec _ _ _ _ Ha Hb).
Qed.

Lemma comma_name_misread_example :
  Split (Person_String (mkPerson "Brown,1933-05-03" "2006-12-24" "2006-12-25")) ","
  = ["Brown"; "1933-05-03"; "2006-12-24"; "2006-12-25"]
  ∧ printResults 100 [Person_String (mkPerson "Brown,1933-05-03" "2006-12-24" "2006-12-25")]
    = IO (scan 100 [("Brown", clampDays (dayNumber (2006, 12, 24) - dayNumber (1933, 5, 3)))] 0)
         (Ok tt).
Proof.
  apply (comma_name_misread "Brown" "1933-05-03"
           (mkPerson "Brown,1933-05-03" "2006-12-24" "2006-12-25")
           (1933, 5, 3) (2006, 12, 24) 100); reflexivity.
Defined.

(** * Further properties of the whole program *)



